(** * The basic View class of the UI library (ui/view.js)

    A shallow embedding of [View] (constructor, the [el] accessor, [bind],
    [render], [destroy], [prepareListeners] with its two inner functions)
    and of the collaborators the class talks to: the observable model, the
    emitter mixin ([listenTo], [stopListening], [fire]), the named
    collection of regions and the template renderer.

    Objects with identity (views, DOM elements, the captured [callback]
    variable of a [bind] closure) are handles into an explicit [world]; every
    effect that leaves the class (a DOM call, a subscription, a call of a
    function supplied from outside) is appended to the world's [log], so
    that the order of effects can be read off the log.

    Closures are data: the function [bind] returns is a [bindfn], the
    function [getDOMListenerAttacher] returns is an [AAttacher], the
    listeners they subscribe are the subscriptions [model_sub] and
    [dom_sub]; running a closure is a function of this file named after it
    ([bind_attach], [onModelChange], [attacher], [listener]).

    Execution is single-threaded. The functions in a View's template were
    made by that View ([this.bind( ... )], [prepareListeners()]), so the
    [this] and [that] their closures captured are the View that renders. *)

From stdpp Require Import base option list strings gmap.
From Stdlib Require Import ZArith Ascii.

Set Default Proof Using "Type".
Set Warnings "-register-all".

(** ** Values and handles *)

(** Handle of a DOM element: two elements are the same object iff their
    handles are equal. *)
Definition elem := nat.

(** Identity of a View instance (the object [this]). *)
Definition view_id := nat.

(** The JavaScript values that travel through a model property and through
    the callbacks of a binding. *)
Inductive value :=
| VUndefined
| VNull
| VBool (b : bool)
| VNum (z : Z)
| VStr (s : string).

(** [typeof v != 'undefined'] *)
Definition typeof_not_undefined (v : value) : bool :=
  match v with
  | VUndefined => false
  | _ => true
  end.

(** Functions whose body lies outside view.js: callbacks written by the
    user of the class and the DOM updaters the template hands to a binding
    (one per attribute). *)
Inductive ofn :=
| UserFn (n : nat)
| AttrUpdater (attr : string).

(** A native DOM event object; [de_target] is [domEvt.target]. *)
Record dom_event := DomEvent { de_id : nat; de_target : elem }.

(** What [listenTo] can be handed as the emitter of a native listener: an
    element, or (when an attacher is called with a native event in the place
    of the element) the event object itself. *)
Inductive dom_emitter :=
| EmElem (e : elem)
| EmEvt (d : dom_event).

(** The value of an entry of an [on] map, or of an item of an array in it:
    the name of an event of the View, a callback, or a function returned by
    [getDOMListenerAttacher] (which closes over its argument). *)
Inductive action :=
| AName (name : string)
| ACallback (f : ofn)
| AAttacher (evtNameOrCallback : action).

Inductive on_value :=
| OSingle (a : action)
| OArray (l : list action).

(** The function returned by [bind]: [bf_cell] is the variable [callback]
    the closure captured, [bf_property] the property name. *)
Record bindfn := BindFn { bf_cell : nat; bf_property : string }.

Inductive attr_value :=
| AVStr (s : string)
| AVBind (f : bindfn).

(** A template definition: one node with its tag, attributes, optional [on]
    map (keys in insertion order) and optional children. *)
Inductive tdef :=
| TDef (tag : string)
       (attributes : list (string * attr_value))
       (on : option (list (string * on_value)))
       (children : option (list tdef)).

Definition def_tag (d : tdef) : string :=
  match d with TDef t _ _ _ => t end.
Definition def_attributes (d : tdef) : list (string * attr_value) :=
  match d with TDef _ a _ _ => a end.
Definition def_on (d : tdef) : option (list (string * on_value)) :=
  match d with TDef _ _ o _ => o end.
Definition def_children (d : tdef) : option (list tdef) :=
  match d with TDef _ _ _ c => c end.

(** ** The world *)

(** A subscription made by [listenTo( this.model, 'change:' + property,
    onModelChange )]; the last three fields are the variables the closure
    [onModelChange] captured. *)
Record model_sub := ModelSub {
  ms_owner : view_id;
  ms_event : string;
  ms_cell : nat;
  ms_el : elem;
  ms_updater : ofn }.

(** A subscription made by [that.listenTo( el, domEvtName, listener )];
    [ds_selector] and [ds_action] are what the listener closure captured. *)
Record dom_sub := DomSub {
  ds_owner : view_id;
  ds_emitter : dom_emitter;
  ds_event : option string;
  ds_selector : option string;
  ds_action : action }.

Inductive event :=
| ECreateElement (e : elem) (tag : string)
| ESetAttribute (e : elem) (attr : string) (s : string)
| EAppendChild (parent child : elem)
| ERemove (e : elem)
| EListenToModel (s : model_sub)
| EListenToDom (s : dom_sub)
| EStopListening (owner : view_id)
| ECall (f : ofn) (e : elem) (v : value)
| ECallEvt (f : ofn) (d : dom_event)
| ECallAttach (f : ofn) (e : elem) (name : string) (selector : option string)
| EFire (v : view_id) (name : string) (d : dom_event)
| ERegionRemove (owner : view_id) (name : string).

Record world := World {
  next_el : nat;
  next_cell : nat;
  cells : gmap nat ofn;
  model_subs : list model_sub;
  dom_subs : list dom_sub;
  log : list event }.

Definition empty_world : world := World 0 0 ∅ [] [] [].

#[global] Instance dom_event_eq_dec : EqDecision dom_event.
Proof. solve_decision. Defined.

#[global] Instance dom_emitter_eq_dec : EqDecision dom_emitter.
Proof. solve_decision. Defined.

#[global] Instance value_eq_dec : EqDecision value.
Proof. solve_decision. Defined.

#[global] Instance ofn_eq_dec : EqDecision ofn.
Proof. solve_decision. Defined.

#[global] Instance action_eq_dec : EqDecision action.
Proof. solve_decision. Defined.

#[global] Instance model_sub_eq_dec : EqDecision model_sub.
Proof. solve_decision. Defined.

#[global] Instance dom_sub_eq_dec : EqDecision dom_sub.
Proof. solve_decision. Defined.

#[global] Instance event_eq_dec : EqDecision event.
Proof. solve_decision. Defined.

Definition emit (ev : event) (w : world) : world :=
  World (next_el w) (next_cell w) (cells w) (model_subs w) (dom_subs w)
        (log w ++ [ev]).

Definition set_cells (c : gmap nat ofn) (w : world) : world :=
  World (next_el w) (next_cell w) c (model_subs w) (dom_subs w) (log w).

(** ** Errors *)

Inductive error :=
| MissingTemplate (view : view_id)
| TypeError.

Inductive result (A : Type) :=
| Ok (a : A)
| Throw (e : error).
Arguments Ok {A} a.
Arguments Throw {A} e.

(** State and exception monad over the world. *)
Definition W (A : Type) : Type := world -> world * result A.

Definition wret {A} (a : A) : W A := fun w => (w, Ok a).
Definition wthrow {A} (e : error) : W A := fun w => (w, Throw e).
Definition wbind {A B} (m : W A) (k : A -> W B) : W B :=
  fun w => match m w with
           | (w', Ok a) => k a w'
           | (w', Throw e) => (w', Throw e)
           end.
Definition wdo (f : world -> world) : W unit := fun w => (f w, Ok tt).

Declare Scope w_scope.
Delimit Scope w_scope with W.
Notation "x <-- m ;; k" := (wbind m (fun x => k))
  (at level 100, m at next level, right associativity) : w_scope.
Notation "m ;;; k" := (wbind m (fun _ => k))
  (at level 100, right associativity) : w_scope.

(** Run a computation for every item of a list, left to right; a throw
    leaves the loop. *)
Fixpoint wforeach {A} (f : A -> W unit) (l : list A) : W unit :=
  match l with
  | [] => wret tt
  | x :: l' => wbind (f x) (fun _ => wforeach f l')
  end.

(** ** The observable model and the emitter mixin *)

(** Modelled from the spec: the observable model ("holds named properties;
    emits a change signal per property when mutated"); its class is not part
    of view.js. A model is the map of its properties, and the model of a
    View is identified by the View that owns it. *)
Abbreviation Model := (gmap string value).

(** [model[ property ]]: [undefined] for a property that is not there. *)
Definition model_get (m : Model) (property : string) : value :=
  default VUndefined (m !! property).

(** Modelled from the spec: [listenTo( emitter, event, callback )] of the
    emitter mixin ("subscribe(eventName, handler)"), which records the
    subscription under the View that made it. *)
Definition listenTo_model (s : model_sub) (w : world) : world :=
  emit (EListenToModel s)
       (World (next_el w) (next_cell w) (cells w) (model_subs w ++ [s])
              (dom_subs w) (log w)).

Definition listenTo_dom (s : dom_sub) (w : world) : world :=
  emit (EListenToDom s)
       (World (next_el w) (next_cell w) (cells w) (model_subs w)
              (dom_subs w ++ [s]) (log w)).

(** Modelled from the spec: [stopListening()] with no argument
    ("unsubscribe-all-for-owner"). *)
Definition stopListening (this : view_id) (w : world) : world :=
  emit (EStopListening this)
       (World (next_el w) (next_cell w) (cells w)
              (filter (fun s => ms_owner s <> this) (model_subs w))
              (filter (fun s => ds_owner s <> this) (dom_subs w))
              (log w)).

(** Modelled from the spec: [document.createElement( tag )] gives an element
    that did not exist before. *)
Definition createElement (tag : string) : W elem :=
  fun w =>
    let e := next_el w in
    (emit (ECreateElement e tag)
          (World (S e) (next_cell w) (cells w) (model_subs w) (dom_subs w)
                 (log w)),
     Ok e).

(** Modelled from the spec: the key of an [on] entry is ["<domEventName>"]
    or ["<domEventName>@<cssSelector>"]. *)
Fixpoint split_key (key : string) : string * option string :=
  match key with
  | EmptyString => (EmptyString, None)
  | String c rest =>
      if Ascii.eqb c "@"%char then (EmptyString, Some rest)
      else let (n, s) := split_key rest in (String c n, s)
  end.

(** [!selector]: true for [undefined] and for the empty string. *)
Definition selector_falsy (selector : option string) : bool :=
  match selector with
  | None => true
  | Some s => bool_decide (s = EmptyString)
  end.

(** ** The View object *)

(** Modelled from the spec: the collection of regions is "ordered,
    name-keyed"; a region is a child View, owned by its parent. *)
Inductive View := mkView {
  vid : view_id;
  model : option Model;
  regions : list (string * View);
  _el : option elem;
  template : option tdef;
  _template : option tdef }.

Definition set_model (m : option Model) (v : View) : View :=
  mkView (vid v) m (regions v) (_el v) (template v) (_template v).
Definition set_regions (rs : list (string * View)) (v : View) : View :=
  mkView (vid v) (model v) rs (_el v) (template v) (_template v).
Definition set_el (e : option elem) (v : View) : View :=
  mkView (vid v) (model v) (regions v) e (template v) (_template v).
Definition set_template (d : option tdef) (v : View) : View :=
  mkView (vid v) (model v) (regions v) (_el v) d (_template v).
Definition set__template (d : option tdef) (v : View) : View :=
  mkView (vid v) (model v) (regions v) (_el v) (template v) d.

(** [new View( model )]: the model wraps the attributes passed in, the
    collection of regions is empty, [_el] and [_template] are not set. A
    subclass sets [template]. *)
Definition new_View (id : view_id) (attrs : Model) : View :=
  mkView id (Some attrs) [] None None None.

(** Modelled from the spec: [NamedCollection] "supports add/remove/iterate;
    removing yields the removed item". *)
Definition nc_add (name : string) (r : View) (rs : list (string * View))
  : list (string * View) :=
  if bool_decide (name ∈ rs.*1) then rs else rs ++ [(name, r)].

Definition nc_remove (name : string) (rs : list (string * View))
  : list (string * View) :=
  filter (fun kv => kv.1 <> name) rs.

(** The items of an [on] entry: the value itself, or the items of the
    array. *)
Definition on_items (v : on_value) : list action :=
  match v with
  | OSingle a => [a]
  | OArray l => l
  end.

(** ** Sample data *)

(** Functions from outside that return [undefined], as a DOM updater does;
    and that return the value they were given. *)
Definition ret_undefined : ofn -> list event -> elem -> value -> value :=
  fun _ _ _ _ => VUndefined.

Definition ret_echo : ofn -> list event -> elem -> value -> value :=
  fun _ _ _ v => v.

(** A DOM in which element 5, and only it, matches the selector [.item]. *)
Definition matches_item : elem -> string -> bool :=
  fun e selector =>
    bool_decide (selector = ".item"%string) && bool_decide (e = 5).

Definition paragraph : tdef := TDef "p" [] None None.

(** A View with the template [{ tag: 'p' }], not rendered yet. *)
Definition plain_view : View :=
  set_template (Some paragraph) (new_View 1 ∅).

(** A View whose template binds the attribute [class] to the property [x]
    of the model, with one region; the function [bind( 'x' )] returned
    captured variable 0. *)
Definition bound_view : View :=
  set_regions [("main"%string, new_View 2 ∅)]
    (set_template
       (Some (TDef "p" [("class"%string, AVBind (BindFn 0 "x"))] None None))
       (new_View 1 {["x"%string := VNum 3]})).

(** The world after [f = bind( 'x', callback )] with the callback
    [UserFn 1], and after [f] was then invoked for element 3 with the
    updater of [class] while the model was [{ x: 3 }]. *)
Definition world_bound : world :=
  World 0 1 {[0 := UserFn 1]} [] [] [].

Definition world_attached : world :=
  World 0 1 {[0 := UserFn 1]}
        [ModelSub 1 "change:x" 0 3 (AttrUpdater "class")] []
        [EListenToModel (ModelSub 1 "change:x" 0 3 (AttrUpdater "class"));
         ECall (UserFn 1) 3 (VNum 3);
         ECall (AttrUpdater "class") 3 (VNum 3)].

(** A View with the template [{ tag: 'p' }] and two regions, one of which
    has a template of its own. *)
Definition parent_view : View :=
  set_regions
    [("main"%string,
      set_template (Some (TDef "div" [] None None)) (new_View 2 ∅));
     ("side"%string, new_View 3 ∅)]
    plain_view.

(** A View whose template declares a delegated listener and an array of
    actions. *)
Definition list_view : View :=
  set_template
    (Some (TDef "ul" []
             (Some [("click@.item"%string, OSingle (AName "pick"));
                    ("keyup"%string,
                     OArray [ACallback (UserFn 7); AName "typed"])])
             (Some [TDef "li" [] None None])))
    (new_View 1 ∅).

Section ViewClass.

(** What a function from outside returns when it is called with
    [( el, value )]; the result may depend on everything that happened
    before the call. Such a function is taken to return normally and not to
    call back into the View. *)
Variable ret : ofn -> list event -> elem -> value -> value.

(** [target.matches( selector )] of the DOM, for selectors the DOM accepts. *)
Variable matches : elem -> string -> bool.

(** ** bind *)

(** [bind( property, callback )]: the closure returned captures a fresh
    variable [callback], which holds the argument ([undefined] when none was
    passed). *)
Definition bind (property : string) (callback : option ofn) (w : world)
  : world * bindfn :=
  let c := next_cell w in
  (World (next_el w) (S c)
         (match callback with
          | Some f => <[c:=f]> (cells w)
          | None => delete c (cells w)
          end)
         (model_subs w) (dom_subs w) (log w),
   BindFn c property).

(** The inner function [onModelChange( evt, value )] of an attachment; [c]
    is the captured variable [callback]. Calling it while the variable is
    [undefined] would be a call of [undefined]. *)
Definition onModelChange (c : nat) (el : elem) (domUpdater : ofn)
    (val : value) : W unit :=
  fun w =>
    match cells w !! c with
    | None => (w, Throw TypeError)
    | Some callback =>
        let processedValue := ret callback (log w) el val in
        let w1 := emit (ECall callback el val) w in
        if typeof_not_undefined processedValue
        then (emit (ECall domUpdater el processedValue) w1, Ok tt)
        else (w1, Ok tt)
    end.

(** [callback = callback || domUpdater] *)
Definition default_callback (c : nat) (domUpdater : ofn) (w : world) : world :=
  match cells w !! c with
  | Some _ => w
  | None => set_cells (<[c:=domUpdater]> (cells w)) w
  end.

(** The arrow function [( el, domUpdater ) => ...] returned by [bind],
    called while [this.model] is [this_model]. With [this.model] null,
    [listenTo( null, ... )] and [null[ property ]] cannot go through. *)
Definition bind_attach (this : view_id) (this_model : option Model)
    (f : bindfn) (el : elem) (domUpdater : ofn) : W unit :=
  (wdo (default_callback (bf_cell f) domUpdater) ;;;
   match this_model with
   | None => wthrow TypeError
   | Some m =>
       wdo (listenTo_model
              (ModelSub this ("change:" ++ bf_property f) (bf_cell f) el
                        domUpdater)) ;;;
       onModelChange (bf_cell f) el domUpdater (model_get m (bf_property f))
   end)%W.

(** The handler of a subscription, called with the new value. *)
Definition change_handler (val : value) (s : model_sub) : W unit :=
  onModelChange (ms_cell s) (ms_el s) (ms_updater s) val.

(** Modelled from the spec: the model of View [this] fires
    ['change:' + property] with the new value; the handlers subscribed at
    that moment run in subscription order. *)
Definition fire_change (this : view_id) (property : string) (val : value)
  : W unit :=
  fun w =>
    wforeach
      (change_handler val)
      (filter (fun s => ms_owner s = this /\
                        ms_event s = ("change:" ++ property)%string)
              (model_subs w))
      w.

(** ** prepareListeners *)

(** [getDOMListenerAttacher( evtNameOrCallback )] returns a closure over its
    argument. *)
Definition getDOMListenerAttacher (evtNameOrCallback : action) : action :=
  AAttacher evtNameOrCallback.

(** The body of the closure returned by [getDOMListenerAttacher]:
    [( el, domEvtName, selector ) => that.listenTo( el, domEvtName, ... )]. *)
Definition attacher (that : view_id) (evtNameOrCallback : action)
    (el : dom_emitter) (domEvtName : option string)
    (selector : option string) (w : world) : world :=
  listenTo_dom (DomSub that el domEvtName selector evtNameOrCallback) w.

(** The inner [if] of a native listener: [typeof evtNameOrCallback ==
    'function'] holds for a callback and for an attacher, which are called
    with the native event as their only argument; anything else is fired on
    the View with the native event as payload. *)
Definition listener_action (that : view_id) (evtNameOrCallback : action)
    (domEvt : dom_event) (w : world) : world :=
  match evtNameOrCallback with
  | ACallback f => emit (ECallEvt f domEvt) w
  | AAttacher a => attacher that a (EmEvt domEvt) None None w
  | AName name => emit (EFire that name domEvt) w
  end.

(** The native listener [( evt, domEvt ) => ...] an attacher subscribes:
    [if ( !selector || domEvt.target.matches( selector ) )]. *)
Definition listener (that : view_id) (selector : option string)
    (evtNameOrCallback : action) (domEvt : dom_event) (w : world) : world :=
  if selector_falsy selector
     || matches (de_target domEvt) (default EmptyString selector)
  then listener_action that evtNameOrCallback domEvt w
  else w.

(** The two branches of the loop body of [prepareElementListeners]: an
    array is mapped through [getDOMListenerAttacher], anything else is
    handed to it as it is. *)
Definition prepare_on_value (v : on_value) : on_value :=
  match v with
  | OArray l => OArray (map getDOMListenerAttacher l)
  | OSingle a => OSingle (getDOMListenerAttacher a)
  end.

(** [prepareElementListeners( def )]: the definition after the in-place
    replacement of every value of every [on] map in the tree. *)
Fixpoint prepareElementListeners (def : tdef) : tdef :=
  match def with
  | TDef tag attributes on children =>
      TDef tag attributes
           (match on with
            | Some o => Some (map (fun kv => (kv.1, prepare_on_value kv.2)) o)
            | None => None
            end)
           (match children with
            | Some cs => Some (map prepareElementListeners cs)
            | None => None
            end)
  end.

(** ** The template renderer *)

(** Modelled from the spec: [Template] is not part of view.js. Rendering a
    definition creates the element of the node, sets its attributes (a bound
    attribute by calling the function [bind] returned with the element and
    the DOM updater of that attribute), renders and appends the children,
    and calls every function of the [on] map with
    [( el, domEvtName, selector )]. *)
Definition renderAttribute (this : view_id) (m : option Model) (el : elem)
    (kv : string * attr_value) : W unit :=
  match kv.2 with
  | AVBind f => bind_attach this m f el (AttrUpdater kv.1)
  | AVStr s => wdo (emit (ESetAttribute el kv.1 s))
  end.

(** Calling an item of an [on] map as a function. An attacher made by View
    [this] subscribes the listener; a string is not callable. *)
Definition call_on_function (this : view_id) (f : action) (el : elem)
    (domEvtName : string) (selector : option string) : W unit :=
  match f with
  | AAttacher a => wdo (attacher this a (EmElem el) (Some domEvtName) selector)
  | ACallback g => wdo (emit (ECallAttach g el domEvtName selector))
  | AName _ => wthrow TypeError
  end.

Definition attachListeners (this : view_id) (el : elem)
    (kv : string * on_value) : W unit :=
  match kv.2 with
  | OArray l =>
      wforeach
        (fun f => call_on_function this f el (split_key kv.1).1
                                   (split_key kv.1).2) l
  | OSingle f =>
      call_on_function this f el (split_key kv.1).1 (split_key kv.1).2
  end.

Definition renderChildren (renderChild : tdef -> W elem) (el : elem)
  : list tdef -> W unit :=
  fix each l :=
    match l with
    | [] => wret tt
    | c :: l' =>
        (child <-- renderChild c ;;
         wdo (emit (EAppendChild el child)) ;;;
         each l')%W
    end.

Definition renderInto (renderChild : tdef -> W elem) (this : view_id)
    (m : option Model) (el : elem)
    (attributes : list (string * attr_value))
    (on : option (list (string * on_value)))
    (children : option (list tdef)) : W elem :=
  (wforeach (renderAttribute this m el) attributes ;;;
   match children with
   | Some cs => renderChildren renderChild el cs
   | None => wret tt
   end ;;;
   match on with
   | Some o => wforeach (attachListeners this el) o
   | None => wret tt
   end ;;;
   wret el)%W.

Fixpoint renderElement (this : view_id) (m : option Model) (def : tdef)
  : W elem :=
  match def with
  | TDef tag attributes on children =>
      (el <-- createElement tag ;;
       renderInto (renderElement this m) this m el attributes on children)%W
  end.

(** [new Template( def ).render()]; an undefined definition has no [tag] to
    read. *)
Definition Template_render (this : view_id) (m : option Model)
    (def : option tdef) : W elem :=
  match def with
  | Some d => renderElement this m d
  | None => wthrow TypeError
  end.

(** ** The methods of View *)

(** [prepareListeners()]: [if ( this.template )
    prepareElementListeners( this.template )], which rewrites the [on] maps
    of [this.template] in place. *)
Definition prepareListeners (v : View) : View :=
  match template v with
  | Some d => set_template (Some (prepareElementListeners d)) v
  | None => v
  end.

(** [render()] *)
Definition render (v : View) (w : world) : View * world * result elem :=
  match template v with
  | None => (v, w, Throw (MissingTemplate (vid v)))
  | Some _ =>
      let v1 := prepareListeners v in
      let v2 := set__template (template v1) v1 in
      match Template_render (vid v2) (model v2) (_template v2) w with
      | (w', Ok e) => (set_el (Some e) v2, w', Ok e)
      | (w', Throw err) => (v2, w', Throw err)
      end
  end.

(** [get el()]: [this._el || this.render()] *)
Definition get_el (v : View) (w : world) : View * world * result elem :=
  match _el v with
  | Some e => (v, w, Ok e)
  | None => render v w
  end.

(** [this.regions.forEach( r => this.regions.remove( r ).destroy() )], with
    the [destroy] of a region passed in. Modelled from the spec: the
    iteration visits every region that is in the collection when it starts,
    in order; [l] is what is left to visit, [cur] the collection. *)
Definition regions_forEach
    (destroy_region : View -> world -> View * world * result unit)
    (this : view_id)
  : list (string * View) -> list (string * View) -> world ->
    list (string * View) * world * result unit :=
  fix each l cur w :=
    match l with
    | [] => (cur, w, Ok tt)
    | (name, r) :: l' =>
        let cur' := nc_remove name cur in
        let w1 := emit (ERegionRemove this name) w in
        match destroy_region r w1 with
        | (_, w2, Ok _) => each l' cur' w2
        | (_, w2, Throw err) => (cur', w2, Throw err)
        end
    end.

(** [if ( this.template ) { this.el.remove(); }] *)
Definition remove_el (v : View) (w : world) : View * world * result unit :=
  match template v with
  | Some _ =>
      match get_el v w with
      | (v', w', Ok e) => (v', emit (ERemove e) w', Ok tt)
      | (v', w', Throw err) => (v', w', Throw err)
      end
  | None => (v, w, Ok tt)
  end.

(** [destroy()] *)
Fixpoint destroy (v : View) (w : world) {struct v}
  : View * world * result unit :=
  match v with
  | mkView id m rs el t ct =>
      match remove_el (mkView id None rs el t ct) w with
      | (v1, w1, Throw err) => (v1, w1, Throw err)
      | (v1, w1, Ok _) =>
          match regions_forEach destroy id rs rs w1 with
          | (rs', w2, Throw err) => (set_regions rs' v1, w2, Throw err)
          | (rs', w2, Ok _) =>
              (set_regions rs' v1, stopListening id w2, Ok tt)
          end
      end
  end.

(** ** Native events *)

(** Modelled from the spec: a native event [domEvt] of type [domEvtName]
    reaches element [el] (its target is [el] or a descendant of [el]); the
    listeners subscribed on [el] for that type run in subscription order. *)
Definition run_listeners (subs : list dom_sub) (domEvt : dom_event)
    (w : world) : world :=
  foldl (fun w' s => listener (ds_owner s) (ds_selector s) (ds_action s)
                              domEvt w')
        w subs.

Definition dispatch (el : elem) (domEvtName : string) (domEvt : dom_event)
    (w : world) : world :=
  run_listeners
    (filter (fun s => ds_emitter s = EmElem el /\
                      ds_event s = Some domEvtName)
            (dom_subs w))
    domEvt w.

(** Modelled from the spec: [this.model.set( property, val )] mutates the
    property and emits its change signal; a null model has no [set]. *)
Definition set_property (property : string) (val : value) (v : View)
    (w : world) : View * world * result unit :=
  match model v with
  | None => (v, w, Throw TypeError)
  | Some m =>
      (set_model (Some (<[property:=val]> m)) v,
       (fire_change (vid v) property val w).1,
       (fire_change (vid v) property val w).2)
  end.

(** Every subscribed change handler has a callback to call: the variable
    [callback] its closure captured is not [undefined]. *)
Definition subs_callable (w : world) : bool :=
  forallb (fun s => bool_decide (is_Some (cells w !! ms_cell s)))
          (model_subs w).

(** A template definition whose [on] maps hold attachers only, as after
    [prepareListeners()]. *)
Definition is_attacher (a : action) : bool :=
  match a with
  | AAttacher _ => true
  | _ => false
  end.

Definition on_value_prepared (v : on_value) : bool :=
  match v with
  | OSingle a => is_attacher a
  | OArray l => forallb is_attacher l
  end.

Fixpoint prepared (def : tdef) : bool :=
  match def with
  | TDef _ _ on children =>
      match on with
      | Some o => forallb (fun kv => on_value_prepared kv.2) o
      | None => true
      end &&
      match children with
      | Some cs => forallb prepared cs
      | None => true
      end
  end.

(** A template definition without bound attributes: rendering it asks
    nothing of the model. *)
Definition attr_unbound (kv : string * attr_value) : bool :=
  match kv.2 with
  | AVStr _ => true
  | AVBind _ => false
  end.

Fixpoint unbound (def : tdef) : bool :=
  match def with
  | TDef _ attributes _ children =>
      forallb attr_unbound attributes &&
      match children with
      | Some cs => forallb unbound cs
      | None => true
      end
  end.

(** The model is there, or the definition does not need it. *)
Definition renders (m : option Model) (def : tdef) : bool :=
  match m with
  | Some _ => true
  | None => unbound def
  end.

(** A View whose [destroy()] renders nothing that needs the model
    [destroy()] has dropped: the View and the regions below it have no
    template, or are rendered already, or have a template without bound
    attributes. *)
Fixpoint destroy_returns (v : View) : bool :=
  match v with
  | mkView _ _ rs el t _ =>
      match t, el with
      | Some d, None => unbound d
      | _, _ => true
      end &&
      forallb (fun kv => destroy_returns kv.2) rs
  end.

(** The result [r] is a return if [b] holds and the throw of a [TypeError]
    if not. *)
Definition result_if {A} (r : result A) (b : bool) : Prop :=
  match r with
  | Ok _ => b = true
  | Throw e => b = false /\ e = TypeError
  end.

(** [w'] is [w] after more of the same: elements were created, events
    logged, subscriptions added, captured callbacks defaulted; nothing was
    taken back. *)
Definition grows (w w' : world) : Prop :=
  next_el w <= next_el w' /\
  (exists l, log w' = log w ++ l) /\
  (exists ds, dom_subs w' = dom_subs w ++ ds) /\
  (exists ms, model_subs w' = model_subs w ++ ms) /\
  (forall k f, cells w !! k = Some f -> cells w' !! k = Some f).

Definition W_grows {A} (m : W A) : Prop := forall w, grows w (m w).1.

Definition W_total {A} (m : W A) : Prop := forall w, exists a, (m w).2 = Ok a.

(** ** Histories of a View *)

(** What the surroundings can do with a View, one step at a time. An
    exception a step throws is caught by the caller, who carries on. *)
Inductive method :=
| CallRender
| ReadEl
| CallDestroy
| CallBind (property : string) (callback : option ofn)
| AddRegion (name : string) (r : View)
| SetProperty (property : string) (val : value)
| NativeEvent (el : elem) (domEvtName : string) (domEvt : dom_event).

Definition call (c : method) (s : View * world) : View * world :=
  match c with
  | CallRender => (render s.1 s.2).1
  | ReadEl => (get_el s.1 s.2).1
  | CallDestroy => (destroy s.1 s.2).1
  | CallBind property callback => (s.1, (bind property callback s.2).1)
  | AddRegion name r => (set_regions (nc_add name r (regions s.1)) s.1, s.2)
  | SetProperty property val => (set_property property val s.1 s.2).1
  | NativeEvent el domEvtName domEvt => (s.1, dispatch el domEvtName domEvt s.2)
  end.

Definition run (cs : list method) (s : View * world) : View * world :=
  foldl (fun s' c => call c s') s cs.

(** Reading a prepared template back: an attacher is replaced by the
    declaration it closes over, in every [on] map of the tree. *)
Definition unwrap_action (a : action) : action :=
  match a with
  | AAttacher b => b
  | _ => a
  end.

Definition unprepare_on_value (v : on_value) : on_value :=
  match v with
  | OArray l => OArray (map unwrap_action l)
  | OSingle a => OSingle (unwrap_action a)
  end.

Fixpoint unprepareElementListeners (def : tdef) : tdef :=
  match def with
  | TDef tag attributes on children =>
      TDef tag attributes
           (match on with
            | Some o =>
                Some (map (fun kv => (kv.1, unprepare_on_value kv.2)) o)
            | None => None
            end)
           (match children with
            | Some cs => Some (map unprepareElementListeners cs)
            | None => None
            end)
  end.

(** What the native listener of View [that] with action [a] leaves in the
    log when it runs its action on [domEvt]. *)
Definition action_event (that : view_id) (domEvt : dom_event) (a : action)
  : event :=
  match a with
  | ACallback f => ECallEvt f domEvt
  | AAttacher b => EListenToDom (DomSub that (EmEvt domEvt) None None b)
  | AName name => EFire that name domEvt
  end.

(** The number of actions declared in the [on] maps of a template tree, and
    the number of its bound attributes. *)
Fixpoint count_actions (def : tdef) : nat :=
  match def with
  | TDef _ _ on children =>
      match on with
      | Some o => sum_list_with (fun kv => length (on_items kv.2)) o
      | None => 0
      end +
      match children with
      | Some cs => sum_list_with count_actions cs
      | None => 0
      end
  end.

Definition attr_bound_count (kv : string * attr_value) : nat :=
  if attr_unbound kv then 0 else 1.

Fixpoint count_bound (def : tdef) : nat :=
  match def with
  | TDef _ attributes _ children =>
      sum_list_with attr_bound_count attributes +
      match children with
      | Some cs => sum_list_with count_bound cs
      | None => 0
      end
  end.

(** The computation [m] returns, having added [nd] subscriptions on
    elements and [nm] subscriptions on the model. *)
Definition W_adds {A} (m : W A) (nd nm : nat) : Prop :=
  forall w,
    (exists a, (m w).2 = Ok a) /\
    length (dom_subs (m w).1) = length (dom_subs w) + nd /\
    length (model_subs (m w).1) = length (model_subs w) + nm.

(** A View and all the Views below it, through the regions. *)
Fixpoint subviews (v : View) : list View :=
  match v with
  | mkView _ _ rs _ _ _ => v :: flat_map (fun kv => subviews kv.2) rs
  end.

(** The events rendering a template logs: elements made and put together,
    subscriptions, calls of callbacks and updaters. Removals, the
    [stopListening()] of a View and events fired on a View are none of
    them. *)
Definition render_event (ev : event) : bool :=
  match ev with
  | ECreateElement _ _ | ESetAttribute _ _ _ | EAppendChild _ _
  | EListenToModel _ | EListenToDom _ | ECall _ _ _
  | ECallAttach _ _ _ _ => true
  | ERemove _ | EStopListening _ | ECallEvt _ _ | EFire _ _ _
  | ERegionRemove _ _ => false
  end.

(** The computation [m] logs events of rendering only. *)
Definition W_logs {A} (m : W A) : Prop :=
  forall w, exists l, log (m w).1 = log w ++ l /\
                      forallb render_event l = true.

(** Lemmas saying that a step only adds to the world. *)
Create HintDb grows.

(** Brings both sides of an equation between concatenations to the same
    right-nested form. *)
Ltac app_norm :=
  rewrite <-?app_assoc; simpl; rewrite <-?app_assoc; try done.

(** * Properties *)

(** ** Fields a method leaves alone *)

Lemma render_vid v w : vid (render v w).1.1 = vid v.
Proof.
  unfold render, prepareListeners.
  destruct v as [id m rs el [d|] ct]; simpl; [|done].
  by destruct (renderElement _ _ _ _) as [w' [e|err]].
Qed.

Lemma render_no_template v w :
  template v = None -> render v w = (v, w, Throw (MissingTemplate (vid v))).
Proof. unfold render. by intros ->. Qed.

Lemma get_el_no_template v w :
  template v = None -> _el v = None ->
  get_el v w = (v, w, Throw (MissingTemplate (vid v))).
Proof. unfold get_el. intros Ht ->. by apply render_no_template. Qed.

Lemma destroy_vid v w : vid (destroy v w).1.1 = vid v.
Proof.
  destruct v as [id m rs el t ct]; simpl.
  unfold remove_el, get_el, render, prepareListeners; simpl.
  destruct t as [d|]; simpl.
  - destruct el as [e|]; simpl.
    + by destruct (regions_forEach _ _ _ _ _) as [[rs' w2] [[]|err]].
    + destruct (renderElement _ _ _ _) as [w' [e|err]]; simpl; [|done].
      by destruct (regions_forEach _ _ _ _ _) as [[rs' w2] [[]|err]].
  - by destruct (regions_forEach _ _ _ _ _) as [[rs' w2] [[]|err]].
Qed.

Lemma destroy_no_template v w :
  template v = None ->
  template (destroy v w).1.1 = None /\ _el (destroy v w).1.1 = _el v.
Proof.
  destruct v as [id m rs el t ct]; simpl. intros ->.
  unfold remove_el; simpl.
  by destruct (regions_forEach _ _ _ _ _) as [[rs' w2] [[]|err]].
Qed.

(** A View without template keeps being one, with no element, whatever is
    done with it. *)
Lemma call_no_template c s :
  template s.1 = None -> _el s.1 = None ->
  template (call c s).1 = None /\ _el (call c s).1 = None /\
  vid (call c s).1 = vid s.1.
Proof.
  destruct s as [v w]; simpl. intros Ht He.
  destruct c; simpl.
  - by rewrite render_no_template.
  - by rewrite get_el_no_template.
  - destruct (destroy_no_template v w Ht) as [-> ->].
    by rewrite destroy_vid.
  - done.
  - done.
  - unfold set_property. by destruct (model v).
  - done.
Qed.

Lemma run_no_template cs s :
  template s.1 = None -> _el s.1 = None ->
  template (run cs s).1 = None /\ _el (run cs s).1 = None /\
  vid (run cs s).1 = vid s.1.
Proof.
  revert s. induction cs as [|c cs IH]; intros s Ht He; [done|].
  simpl. destruct (call_no_template c s Ht He) as (Ht' & He' & <-).
  by apply IH.
Qed.

(** C3. A View constructed without a template description stays without one
    through any history; in every state it reaches, [render()] throws the
    error [ui-view-notemplate] at once (the View and the world are as
    before the call) with the View itself as the error's [view], and so does
    reading the accessor [el], which delegates to [render()]. *)
Theorem render_without_template_throws
    (id : view_id) (attrs : Model) (cs : list method) (w0 : world) :
  render (run cs (new_View id attrs, w0)).1 (run cs (new_View id attrs, w0)).2
  = (run cs (new_View id attrs, w0), Throw (MissingTemplate id)) /\
  get_el (run cs (new_View id attrs, w0)).1 (run cs (new_View id attrs, w0)).2
  = (run cs (new_View id attrs, w0), Throw (MissingTemplate id)).
Proof.
  destruct (run_no_template cs (new_View id attrs, w0)) as (Ht & He & Hid);
    [done..|].
  simpl in Hid. destruct (run cs _) as [v w]; simpl in *.
  rewrite get_el_no_template, render_no_template by done.
  by rewrite Hid.
Qed.

(** ** Bindings *)

Lemma onModelChange_callable c cb el upd val w :
  cells w !! c = Some cb ->
  onModelChange c el upd val w =
    (if typeof_not_undefined (ret cb (log w) el val)
     then emit (ECall upd el (ret cb (log w) el val))
               (emit (ECall cb el val) w)
     else emit (ECall cb el val) w,
     Ok tt).
Proof.
  unfold onModelChange. intros ->.
  by destruct (typeof_not_undefined _).
Qed.

Lemma typeof_not_undefined_true v :
  typeof_not_undefined v = true <-> v <> VUndefined.
Proof. by destruct v. Qed.


Lemma bind_callback_cell p cb w :
  cells (bind p (Some cb) w).1 !! bf_cell (bind p (Some cb) w).2 = Some cb.
Proof. simpl. apply lookup_insert_eq. Qed.

Lemma bind_no_callback_cell p w :
  cells (bind p None w).1 !! bf_cell (bind p None w).2 = None.
Proof. simpl. apply lookup_delete_eq. Qed.

Lemma default_callback_cell c upd w :
  cells (default_callback c upd w) !! c = Some (default upd (cells w !! c)).
Proof.
  unfold default_callback. destruct (cells w !! c) eqn:Hc; simpl; [done|].
  apply lookup_insert_eq.
Qed.

Lemma default_callback_keeps c upd w k f :
  cells w !! k = Some f -> cells (default_callback c upd w) !! k = Some f.
Proof.
  unfold default_callback. intros Hk.
  destruct (cells w !! c) eqn:Hc; simpl; [done|].
  rewrite lookup_insert_ne; [done|]. intros ->. congruence.
Qed.

(** The callback passed to [bind] stays the callback of the function
    returned, however often the function is invoked. *)
Lemma bind_attach_keeps_callback this m f el upd w cb :
  cells w !! bf_cell f = Some cb ->
  cells (bind_attach this m f el upd w).1 !! bf_cell f = Some cb.
Proof.
  intros Hc. unfold bind_attach, wbind, wdo, wthrow.
  pose proof (default_callback_keeps (bf_cell f) upd w _ _ Hc) as Hd.
  destruct m as [m|]; [|done].
  rewrite onModelChange_callable with (cb := cb) by done.
  by destruct (typeof_not_undefined _).
Qed.

(** What one invocation of the function returned by [bind] does while the
    model is there. *)
Lemma bind_attach_live this m f el upd w :
  bind_attach this (Some m) f el upd w =
    onModelChange (bf_cell f) el upd (model_get m (bf_property f))
      (listenTo_model
         (ModelSub this ("change:" ++ bf_property f) (bf_cell f) el upd)
         (default_callback (bf_cell f) upd w)).
Proof. done. Qed.

Lemma bind_attach_null this f el upd w :
  bind_attach this None f el upd w =
    (default_callback (bf_cell f) upd w, Throw TypeError).
Proof. done. Qed.

Lemma onModelChange_log c el upd val w :
  exists l, log (onModelChange c el upd val w).1 = log w ++ l.
Proof.
  unfold onModelChange. destruct (cells w !! c) as [cb|].
  - destruct (typeof_not_undefined _); simpl.
    + exists [ECall cb el val; ECall upd el (ret cb (log w) el val)].
      by rewrite <-app_assoc.
    + by exists [ECall cb el val].
  - exists []. by rewrite app_nil_r.
Qed.

Lemma wforeach_cons {A} (f : A -> W unit) x l w :
  wforeach f (x :: l) w =
    match f x w with
    | (w', Ok _) => wforeach f l w'
    | (w', Throw e) => (w', Throw e)
    end.
Proof. done. Qed.

Lemma change_handlers_log val L w :
  exists l, log (wforeach (change_handler val) L w).1 = log w ++ l.
Proof.
  revert w. induction L as [|s L IH]; intros w.
  - exists []. simpl. by rewrite app_nil_r.
  - rewrite wforeach_cons. unfold change_handler at 1.
    destruct (onModelChange_log (ms_cell s) (ms_el s) (ms_updater s) val w)
      as [l1 Hl1].
    destruct (onModelChange _ _ _ _ w) as [w1 [[]|err]]; simpl in *.
    + destruct (IH w1) as [l2 Hl2]. exists (l1 ++ l2).
      by rewrite Hl2, Hl1, <-app_assoc.
    + by exists l1.
Qed.

(** Handlers that all have a callback run to the end, each calling its
    callback with the new value. *)
Lemma change_handlers_run val L w :
  Forall (fun s => is_Some (cells w !! ms_cell s)) L ->
  exists w' l,
    wforeach (change_handler val) L w = (w', Ok tt) /\
    cells w' = cells w /\ log w' = log w ++ l /\
    forall s cb, s ∈ L -> cells w !! ms_cell s = Some cb ->
                 ECall cb (ms_el s) val ∈ l.
Proof.
  revert w. induction L as [|s L IH]; intros w HL.
  - exists w, []. rewrite app_nil_r. repeat split; try done.
    intros s cb Hs. by apply elem_of_nil in Hs.
  - apply Forall_cons in HL as [[cb Hcb] HL].
    rewrite wforeach_cons. unfold change_handler at 1.
    rewrite (onModelChange_callable _ _ _ _ _ _ Hcb).
    set (w1 := if typeof_not_undefined _ then _ else _).
    assert (cells w1 = cells w) as Hc1.
    { subst w1. by destruct (typeof_not_undefined _). }
    assert (exists l1, log w1 = log w ++ ECall cb (ms_el s) val :: l1)
      as [l1 Hl1].
    { subst w1. destruct (typeof_not_undefined _); simpl.
      - eexists. by rewrite <-app_assoc.
      - by exists []. }
    destruct (IH w1) as (w' & l & -> & Hc' & Hl & Hin).
    { by rewrite Hc1. }
    exists w', (ECall cb (ms_el s) val :: l1 ++ l).
    split; [done|]. split; [congruence|].
    split; [by rewrite Hl, Hl1, <-app_assoc|].
    intros s' cb' Hs' Hcb'. apply elem_of_cons in Hs' as [->|Hs'].
    + assert (cb' = cb) as -> by congruence. apply elem_of_cons; by left.
    + apply elem_of_cons; right. apply elem_of_app; right.
      apply (Hin s' cb' Hs'). by rewrite Hc1.
Qed.

Lemma subs_callable_Forall w :
  subs_callable w = true ->
  Forall (fun s => is_Some (cells w !! ms_cell s)) (model_subs w).
Proof.
  unfold subs_callable. intros H. apply Forall_forall. intros s Hs.
  rewrite forallb_forall in H. apply list_elem_of_In in Hs.
  specialize (H s Hs). by apply bool_decide_eq_true in H.
Qed.

(** The world after one invocation of the function returned by [bind]. *)
Lemma bind_attach_world this m f el upd w :
  let s := ModelSub this ("change:" ++ bf_property f) (bf_cell f) el upd in
  let v0 := model_get m (bf_property f) in
  let cb := default upd (cells w !! bf_cell f) in
  let pv := ret cb (log w ++ [EListenToModel s]) el v0 in
  exists w1,
    bind_attach this (Some m) f el upd w = (w1, Ok tt) /\
    model_subs w1 = model_subs w ++ [s] /\
    cells w1 = cells (default_callback (bf_cell f) upd w) /\
    log w1 = log w ++ EListenToModel s :: ECall cb el v0 ::
               (if typeof_not_undefined pv then [ECall upd el pv] else []).
Proof.
  intros s v0 cb pv. rewrite bind_attach_live. fold s v0.
  pose proof (default_callback_cell (bf_cell f) upd w) as Hcell.
  fold cb in Hcell.
  set (wd := default_callback (bf_cell f) upd w) in *.
  assert (model_subs wd = model_subs w /\ log wd = log w) as [Hms Hlog].
  { subst wd. unfold default_callback. by destruct (cells w !! bf_cell f). }
  assert (cells (listenTo_model s wd) !! bf_cell f = Some cb) as Hc1 by done.
  assert (log (listenTo_model s wd) = log w ++ [EListenToModel s]) as Hl1.
  { simpl. by rewrite Hlog. }
  rewrite (onModelChange_callable _ _ _ _ _ _ Hc1). rewrite Hl1. fold pv.
  eexists. split; [done|].
  destruct (typeof_not_undefined pv); simpl; rewrite Hms, Hlog;
    by rewrite <-?app_assoc.
Qed.

(** C4. Invoking the function returned by [bind] (while the model is there)
    first subscribes the change handler to ['change:' + p] and then calls the
    handler once with the current value [v0] of the property: the world's
    log grows by the subscription, the one call of the callback with [v0]
    and, if its result is not [undefined], the call of the updater. Whatever
    a later change notification for [p] does comes after these in the log;
    if every handler subscribed before had a callback, that notification
    reaches the new handler, which calls the callback with the new value. *)
Theorem bind_attach_subscribes_then_calls
    (this : view_id) (m : Model) (f : bindfn) (el : elem) (upd : ofn)
    (w : world) :
  let s := ModelSub this ("change:" ++ bf_property f) (bf_cell f) el upd in
  let v0 := model_get m (bf_property f) in
  let cb := default upd (cells w !! bf_cell f) in
  let pv := ret cb (log w ++ [EListenToModel s]) el v0 in
  exists w1,
    bind_attach this (Some m) f el upd w = (w1, Ok tt) /\
    model_subs w1 = model_subs w ++ [s] /\
    log w1 = log w ++ EListenToModel s :: ECall cb el v0 ::
               (if typeof_not_undefined pv then [ECall upd el pv] else []) /\
    forall val,
      (exists l, log (fire_change this (bf_property f) val w1).1
                 = log w1 ++ l) /\
      (subs_callable w = true ->
       exists w2 l1 l2,
         fire_change this (bf_property f) val w1 = (w2, Ok tt) /\
         log w2 = log w1 ++ l1 ++ ECall cb el val :: l2).
Proof.
  intros s v0 cb pv.
  destruct (bind_attach_world this m f el upd w)
    as (w1 & Hrun & Hsubs & Hcells & Hlog).
  exists w1. repeat (split; [done|]).
  intros val. split.
  { unfold fire_change. apply change_handlers_log. }
  intros Hwf. unfold fire_change. rewrite Hsubs.
  set (L := filter _ _).
  destruct (change_handlers_run val L w1) as (w2 & l & Hfire & _ & Hl & Hin).
  { apply Forall_forall. intros s' Hs'. subst L.
    apply list_elem_of_filter in Hs' as [_ Hs'].
    rewrite Hcells. apply elem_of_app in Hs' as [Hs'|Hs'].
    - apply subs_callable_Forall in Hwf.
      rewrite Forall_forall in Hwf. destruct (Hwf s' Hs') as [g Hg].
      exists g. by apply default_callback_keeps.
    - apply list_elem_of_singleton in Hs' as ->.
      rewrite default_callback_cell. by eexists. }
  assert (ECall cb el val ∈ l) as Hcall.
  { apply (Hin s cb).
    - subst L. apply list_elem_of_filter. split; [done|].
      apply elem_of_app; right. by apply list_elem_of_singleton.
    - rewrite Hcells. apply default_callback_cell. }
  apply list_elem_of_split in Hcall as (l1 & l2 & ->).
  by exists w2, l1, l2.
Qed.

(** C2 (what the code does). The function returned by [bind( p )] without a
    callback keeps, in the variable it captured, the updater of its first
    invocation: invoked again for another element with another updater
    [u2], it subscribes a handler whose callback is still the first updater
    [u1], so the initial call is [u1( el2, v0 )] and [u2] is called only with
    what [u1] returned. *)
Theorem bind_reuse_calls_first_updater
    (p : string) (this : view_id) (m : Model) (el1 el2 : elem)
    (u1 u2 : ofn) (w : world) :
  let f := (bind p None w).2 in
  let s2 := ModelSub this ("change:" ++ p) (bf_cell f) el2 u2 in
  exists w1 w2,
    bind_attach this (Some m) f el1 u1 (bind p None w).1 = (w1, Ok tt) /\
    bind_attach this (Some m) f el2 u2 w1 = (w2, Ok tt) /\
    cells w1 !! bf_cell f = Some u1 /\
    cells w2 !! bf_cell f = Some u1 /\
    log w2 = log w1 ++ EListenToModel s2 :: ECall u1 el2 (model_get m p) ::
               (if typeof_not_undefined
                     (ret u1 (log w1 ++ [EListenToModel s2]) el2
                          (model_get m p))
                then [ECall u2 el2
                        (ret u1 (log w1 ++ [EListenToModel s2]) el2
                             (model_get m p))]
                else []).
Proof.
  intros f s2.
  destruct (bind_attach_world this m f el1 u1 (bind p None w).1)
    as (w1 & H1 & _ & Hc1 & _).
  assert (cells w1 !! bf_cell f = Some u1) as Hcell1.
  { rewrite Hc1, default_callback_cell. subst f.
    by rewrite bind_no_callback_cell. }
  destruct (bind_attach_world this m f el2 u2 w1)
    as (w2 & H2 & _ & Hc2 & Hl2).
  rewrite Hcell1 in Hl2. simpl in Hl2.
  exists w1, w2. repeat (split; [done|]). split; [|done].
  rewrite Hc2, default_callback_cell, Hcell1. done.
Qed.

(** ** Native listeners *)

Lemma listener_action_log that a domEvt w :
  exists ev, log (listener_action that a domEvt w) = log w ++ [ev].
Proof. destruct a; simpl; by eexists. Qed.

Lemma listener_action_changes that a domEvt w :
  listener_action that a domEvt w <> w.
Proof.
  intros H. destruct (listener_action_log that a domEvt w) as [ev Hev].
  rewrite H in Hev. apply (f_equal length) in Hev.
  rewrite length_app in Hev. simpl in Hev. lia.
Qed.

Lemma selector_falsy_nonempty sel :
  sel <> EmptyString -> selector_falsy (Some sel) = false.
Proof. intros H. simpl. by apply bool_decide_eq_false. Qed.

(** An empty string in the place of the selector counts as no selector. *)
Lemma listener_empty_selector that a domEvt w :
  listener that (Some EmptyString) a domEvt w
  = listener_action that a domEvt w.
Proof. done. Qed.

Lemma dispatch_after_attacher that a el domEvtName selector domEvt w :
  dispatch el domEvtName domEvt
           (attacher that a (EmElem el) (Some domEvtName) selector w)
  = listener that selector a domEvt
      (run_listeners
         (filter (fun s => ds_emitter s = EmElem el /\
                           ds_event s = Some domEvtName) (dom_subs w))
         domEvt
         (attacher that a (EmElem el) (Some domEvtName) selector w)).
Proof.
  unfold dispatch, run_listeners. simpl dom_subs.
  rewrite filter_app, foldl_app.
  rewrite filter_cons_True by done. by rewrite filter_nil.
Qed.

(** C6. An attacher invoked as [( el, domEvtName, selector )] subscribes one
    listener on [el]; a dispatch of that native event on [el] runs it (after
    the listeners subscribed before). The listener runs its action (calling
    the function with the native event, or firing the named event on the
    View with the native event as payload), which always leaves a trace:
    with no selector, at every dispatch; with a selector (a non-empty
    string), if and only if the target of the event matches it. *)
Theorem listener_runs_action_iff_target_matches
    (that : view_id) (a : action) (el : elem) (domEvtName : string)
    (selector : option string) (domEvt : dom_event) (w : world) :
  dom_subs (attacher that a (EmElem el) (Some domEvtName) selector w)
  = dom_subs w ++ [DomSub that (EmElem el) (Some domEvtName) selector a] /\
  dispatch el domEvtName domEvt
           (attacher that a (EmElem el) (Some domEvtName) selector w)
  = listener that selector a domEvt
      (run_listeners
         (filter (fun s => ds_emitter s = EmElem el /\
                           ds_event s = Some domEvtName) (dom_subs w))
         domEvt
         (attacher that a (EmElem el) (Some domEvtName) selector w)) /\
  (forall f w', listener_action that (ACallback f) domEvt w'
                = emit (ECallEvt f domEvt) w') /\
  (forall name w', listener_action that (AName name) domEvt w'
                   = emit (EFire that name domEvt) w') /\
  (forall w', listener_action that a domEvt w' <> w') /\
  (selector = None ->
   forall w', listener that selector a domEvt w'
              = listener_action that a domEvt w') /\
  (forall sel, selector = Some sel -> sel <> EmptyString ->
   forall w',
     (listener that selector a domEvt w' = listener_action that a domEvt w'
      <-> matches (de_target domEvt) sel = true) /\
     (listener that selector a domEvt w' = w'
      <-> matches (de_target domEvt) sel = false)).
Proof.
  split; [done|]. split; [apply dispatch_after_attacher|].
  split; [done|]. split; [done|].
  split; [intros w'; apply listener_action_changes|].
  split; [by intros ->|].
  intros sel -> Hne w'. unfold listener.
  rewrite (selector_falsy_nonempty _ Hne). simpl.
  pose proof (listener_action_changes that a domEvt w') as Hch.
  destruct (matches (de_target domEvt) sel); split; split; try done.
Qed.

(** ** Rendering *)

Lemma tdef_ind' (P : tdef -> Prop) :
  (forall tag attributes on children,
     Forall P (default [] children) -> P (TDef tag attributes on children)) ->
  forall d, P d.
Proof.
  intros H. fix IH 1. intros [tag attributes on children]. apply H.
  destruct children as [cs|]; [|constructor]. simpl.
  induction cs as [|c cs IHcs]; constructor; [apply IH|apply IHcs].
Qed.

Lemma grows_refl w : grows w w.
Proof.
  repeat split; [done|..|done]; exists []; by rewrite app_nil_r.
Qed.

Lemma grows_trans w1 w2 w3 : grows w1 w2 -> grows w2 w3 -> grows w1 w3.
Proof.
  intros (Hn & [l Hl] & [ds Hds] & [ms Hms] & Hc)
         (Hn' & [l' Hl'] & [ds' Hds'] & [ms' Hms'] & Hc').
  split; [lia|].
  split; [exists (l ++ l'); by rewrite Hl', Hl, <-app_assoc|].
  split; [exists (ds ++ ds'); by rewrite Hds', Hds, <-app_assoc|].
  split; [exists (ms ++ ms'); by rewrite Hms', Hms, <-app_assoc|].
  auto.
Qed.

Lemma grows_emit ev w : grows w (emit ev w).
Proof.
  repeat split; [done|by exists [ev]|..|done]; exists []; simpl;
    by rewrite app_nil_r.
Qed.

Lemma grows_listenTo_dom s w : grows w (listenTo_dom s w).
Proof.
  repeat split; [done|by exists [EListenToDom s]|by exists [s]| |done].
  exists []. simpl. by rewrite app_nil_r.
Qed.

Lemma grows_listenTo_model s w : grows w (listenTo_model s w).
Proof.
  repeat split; [done|by exists [EListenToModel s]| |by exists [s]|done].
  exists []. simpl. by rewrite app_nil_r.
Qed.

Lemma grows_default_callback c upd w : grows w (default_callback c upd w).
Proof.
  unfold default_callback. destruct (cells w !! c) eqn:Hc;
    [apply grows_refl|].
  repeat split; [done|..]; try (exists []; simpl; by rewrite app_nil_r).
  intros k f Hk. simpl. rewrite lookup_insert_ne; [done|].
  intros ->. congruence.
Qed.

Lemma W_grows_ret {A} (a : A) : W_grows (wret a).
Proof. intros w. apply grows_refl. Qed.

Lemma W_grows_throw {A} e : W_grows (@wthrow A e).
Proof. intros w. apply grows_refl. Qed.

Lemma W_grows_do f : (forall w, grows w (f w)) -> W_grows (wdo f).
Proof. intros H w. apply H. Qed.

Lemma W_grows_bind {A B} (m : W A) (k : A -> W B) :
  W_grows m -> (forall a, W_grows (k a)) -> W_grows (wbind m k).
Proof.
  intros Hm Hk w. unfold wbind. specialize (Hm w).
  destruct (m w) as [w1 [a|e]]; simpl in *; [|done].
  eapply grows_trans; [done|apply Hk].
Qed.

Lemma W_grows_foreach {A} (f : A -> W unit) l :
  (forall x, W_grows (f x)) -> W_grows (wforeach f l).
Proof.
  intros Hf. induction l as [|x l IH]; simpl.
  - apply W_grows_ret.
  - by apply W_grows_bind.
Qed.

Lemma W_grows_createElement tag : W_grows (createElement tag).
Proof.
  intros w. repeat split; simpl; [lia|by eexists|..|done];
    exists []; by rewrite app_nil_r.
Qed.

#[local] Hint Resolve grows_refl grows_emit grows_listenTo_dom
  grows_listenTo_model grows_default_callback : grows.
#[local] Hint Resolve W_grows_ret W_grows_throw W_grows_do W_grows_bind
  W_grows_foreach W_grows_createElement : grows.

Lemma W_grows_onModelChange c el upd val :
  W_grows (onModelChange c el upd val).
Proof.
  intros w. unfold onModelChange.
  destruct (cells w !! c) as [cb|]; [|auto with grows].
  destruct (typeof_not_undefined _); simpl; [|auto with grows].
  eapply grows_trans; apply grows_emit.
Qed.
#[local] Hint Resolve W_grows_onModelChange : grows.

Lemma W_grows_bind_attach this m f el upd :
  W_grows (bind_attach this m f el upd).
Proof. unfold bind_attach. destruct m; auto 10 with grows. Qed.
#[local] Hint Resolve W_grows_bind_attach : grows.

Lemma W_grows_renderAttribute this m el kv :
  W_grows (renderAttribute this m el kv).
Proof. unfold renderAttribute. destruct kv.2; auto with grows. Qed.

Lemma W_grows_call_on_function this f el name sel :
  W_grows (call_on_function this f el name sel).
Proof.
  destruct f; simpl; auto with grows.
  apply W_grows_do. intros w. apply grows_listenTo_dom.
Qed.
#[local] Hint Resolve W_grows_renderAttribute W_grows_call_on_function
  : grows.

Lemma W_grows_attachListeners this el kv :
  W_grows (attachListeners this el kv).
Proof. unfold attachListeners. destruct kv.2; auto with grows. Qed.
#[local] Hint Resolve W_grows_attachListeners : grows.

Lemma W_grows_renderChildren rc el cs :
  Forall (fun c => W_grows (rc c)) cs -> W_grows (renderChildren rc el cs).
Proof. induction 1 as [|c cs Hc _ IH]; simpl; auto 10 with grows. Qed.

Lemma W_grows_renderInto rc this m el attributes on children :
  Forall (fun c => W_grows (rc c)) (default [] children) ->
  W_grows (renderInto rc this m el attributes on children).
Proof.
  intros Hcs. unfold renderInto.
  pose proof (W_grows_renderChildren rc el) as Hrc.
  destruct children, on; simpl in Hcs; auto 10 with grows.
Qed.

Lemma W_grows_renderElement this m d : W_grows (renderElement this m d).
Proof.
  induction d as [tag attributes on children IH] using tdef_ind'; simpl.
  apply W_grows_bind; [apply W_grows_createElement|]. intros el.
  by apply W_grows_renderInto.
Qed.

Lemma wbind_ok_inv {A B} (m : W A) (k : A -> W B) w w' b :
  wbind m k w = (w', Ok b) ->
  exists a w1, m w = (w1, Ok a) /\ k a w1 = (w', Ok b).
Proof.
  unfold wbind. destruct (m w) as [w1 [a|e]]; [|done].
  intros H. by exists a, w1.
Qed.

Lemma W_total_ret {A} (a : A) : W_total (wret a).
Proof. intros w. by exists a. Qed.

Lemma W_total_do f : W_total (wdo f).
Proof. intros w. by exists tt. Qed.

Lemma W_total_bind {A B} (m : W A) (k : A -> W B) :
  W_total m -> (forall a, W_total (k a)) -> W_total (wbind m k).
Proof.
  intros Hm Hk w. unfold wbind. destruct (Hm w) as [a Ha].
  destruct (m w) as [w1 [a'|e]]; simpl in *; [|done]. apply Hk.
Qed.

Lemma W_total_foreach {A} (f : A -> W unit) l :
  Forall (fun x => W_total (f x)) l -> W_total (wforeach f l).
Proof.
  induction 1 as [|x l Hx _ IH]; simpl; [apply W_total_ret|].
  by apply W_total_bind.
Qed.

Lemma W_total_bind_attach this m f el upd :
  W_total (bind_attach this (Some m) f el upd).
Proof.
  intros w. destruct (bind_attach_world this m f el upd w) as (w1 & -> & _).
  by exists tt.
Qed.

Lemma W_total_renderAttribute this m el kv :
  match m with Some _ => true | None => attr_unbound kv end = true ->
  W_total (renderAttribute this m el kv).
Proof.
  unfold renderAttribute, attr_unbound.
  destruct kv.2; [intros _; apply W_total_do|].
  destruct m; [|done]. intros _. apply W_total_bind_attach.
Qed.

Lemma W_total_call_on_function this f el name sel :
  is_attacher f = true -> W_total (call_on_function this f el name sel).
Proof. destruct f; [done..|]. intros _. apply W_total_do. Qed.

Lemma W_total_attachListeners this el kv :
  on_value_prepared kv.2 = true -> W_total (attachListeners this el kv).
Proof.
  unfold attachListeners. destruct kv.2 as [a|l]; simpl; intros H.
  - by apply W_total_call_on_function.
  - apply W_total_foreach. rewrite forallb_forall in H.
    apply Forall_forall. intros f Hf. apply W_total_call_on_function.
    apply H. by apply list_elem_of_In.
Qed.

Lemma W_total_renderChildren rc el cs :
  Forall (fun c => W_total (rc c)) cs -> W_total (renderChildren rc el cs).
Proof.
  induction 1 as [|c cs Hc _ IH]; simpl; [apply W_total_ret|].
  apply W_total_bind; [done|]. intros child.
  apply W_total_bind; [apply W_total_do|]. by intros _.
Qed.

Lemma W_total_renderInto rc this m el attributes on children :
  Forall (fun c => W_total (rc c)) (default [] children) ->
  Forall (fun kv => on_value_prepared kv.2 = true) (default [] on) ->
  match m with Some _ => true | None => forallb attr_unbound attributes end
  = true ->
  W_total (renderInto rc this m el attributes on children).
Proof.
  intros Hcs Hon Hattrs. unfold renderInto. apply W_total_bind.
  { apply W_total_foreach, Forall_forall. intros kv Hkv.
    apply W_total_renderAttribute. destruct m; [done|].
    rewrite forallb_forall in Hattrs. apply Hattrs.
    by apply list_elem_of_In. }
  intros _. apply W_total_bind.
  { destruct children; [by apply W_total_renderChildren|apply W_total_ret]. }
  intros _. apply W_total_bind; [|intros _; apply W_total_ret].
  destruct on as [o|]; [|apply W_total_ret]. simpl in Hon.
  apply W_total_foreach. eapply Forall_impl; [done|]. intros kv.
  apply W_total_attachListeners.
Qed.

(** With the listeners prepared, and the model there unless the definition
    does without, rendering a definition goes through. *)
Lemma W_total_renderElement this m d :
  prepared d = true -> renders m d = true ->
  W_total (renderElement this m d).
Proof.
  induction d as [tag attributes on children IH] using tdef_ind'; simpl.
  intros [Hon Hcs]%andb_true_iff Hm.
  apply W_total_bind; [intros w; by eexists|]. intros el.
  apply W_total_renderInto.
  - destruct children as [cs|]; [|constructor]. simpl in *.
    rewrite forallb_forall in Hcs. rewrite Forall_forall in IH.
    apply Forall_forall. intros c Hc. apply IH; [done| |].
    + apply Hcs. by apply list_elem_of_In.
    + destruct m; [done|]. simpl in *.
      apply andb_true_iff in Hm as [_ Hm].
      rewrite forallb_forall in Hm. apply Hm. by apply list_elem_of_In.
  - destruct on as [o|]; [|constructor]. simpl.
    rewrite forallb_forall in Hon. apply Forall_forall. intros kv Hkv.
    apply Hon. by apply list_elem_of_In.
  - destruct m; [done|]. simpl in Hm.
    by apply andb_true_iff in Hm as [Hm _].
Qed.

Lemma prepare_on_value_prepared v :
  on_value_prepared (prepare_on_value v) = true.
Proof.
  destruct v as [a|l]; simpl; [done|].
  apply forallb_forall. intros f [a [<- _]]%in_map_iff. done.
Qed.

Lemma prepareElementListeners_prepared d :
  prepared (prepareElementListeners d) = true.
Proof.
  induction d as [tag attributes on children IH] using tdef_ind'; simpl.
  apply andb_true_iff. split.
  - destruct on as [o|]; [|done]. apply forallb_forall.
    intros kv' [kv [<- _]]%in_map_iff. apply prepare_on_value_prepared.
  - destruct children as [cs|]; [|done]. simpl in IH.
    apply forallb_forall. intros c' [c [<- Hc]]%in_map_iff.
    rewrite Forall_forall in IH. apply IH. by apply list_elem_of_In.
Qed.

Lemma prepareElementListeners_tag d :
  def_tag (prepareElementListeners d) = def_tag d.
Proof. by destruct d. Qed.

Lemma renderInto_returns_el rc this m el attributes on children w w' e :
  renderInto rc this m el attributes on children w = (w', Ok e) -> e = el.
Proof.
  unfold renderInto. intros H.
  apply wbind_ok_inv in H as (_ & w1 & _ & H).
  apply wbind_ok_inv in H as (_ & w2 & _ & H).
  apply wbind_ok_inv in H as (_ & w3 & _ & H).
  unfold wret in H. congruence.
Qed.

(** Rendering a definition creates the root element first, a new one, and
    returns it if nothing throws. *)
Lemma renderElement_creates this m d w :
  next_el w < next_el (renderElement this m d w).1 /\
  (exists l, log (renderElement this m d w).1
             = log w ++ ECreateElement (next_el w) (def_tag d) :: l) /\
  (forall e, (renderElement this m d w).2 = Ok e -> e = next_el w).
Proof.
  destruct d as [tag attributes on children].
  set (w1 := (createElement tag w).1).
  set (K := renderInto (renderElement this m) this m (next_el w) attributes
                       on children).
  change (renderElement this m (TDef tag attributes on children) w)
    with (K w1).
  simpl def_tag.
  assert (grows w1 (K w1).1) as (Hn & [l Hl] & _).
  { subst K. apply W_grows_renderInto.
    apply Forall_forall. intros c _. apply W_grows_renderElement. }
  split; [simpl in Hn; lia|]. split.
  - exists l. rewrite Hl. simpl. by rewrite <-app_assoc.
  - intros e He. destruct (K w1) as [w' r] eqn:HK. simpl in He. subst r.
    subst K. by apply renderInto_returns_el in HK.
Qed.

Lemma prepareElementListeners_unbound d :
  unbound (prepareElementListeners d) = unbound d.
Proof.
  induction d as [tag attributes on children IH] using tdef_ind'; simpl.
  f_equal. destruct children as [cs|]; [|done]. simpl in IH.
  induction IH as [|c cs Hc _ IHcs]; [done|]. simpl. by rewrite Hc, IHcs.
Qed.

(** [render()] of a View that has a template, and its model unless the
    template does without. *)
Lemma render_returns v w d :
  template v = Some d -> renders (model v) d = true ->
  exists w' l,
    render v w =
      (mkView (vid v) (model v) (regions v) (Some (next_el w))
              (Some (prepareElementListeners d))
              (Some (prepareElementListeners d)),
       w', Ok (next_el w)) /\
    renderElement (vid v) (model v) (prepareElementListeners d) w
    = (w', Ok (next_el w)) /\
    next_el w < next_el w' /\
    log w' = log w ++ ECreateElement (next_el w) (def_tag d) :: l.
Proof.
  intros Ht Hm. unfold render, prepareListeners. rewrite Ht. simpl.
  destruct (W_total_renderElement (vid v) (model v)
              (prepareElementListeners d)
              (prepareElementListeners_prepared d)) with (w := w)
    as [e He].
  { destruct (model v); [done|]. simpl in *.
    by rewrite prepareElementListeners_unbound. }
  destruct (renderElement_creates (vid v) (model v)
              (prepareElementListeners d) w) as (Hn & [l Hl] & Hres).
  destruct (renderElement _ _ _ w) as [w' r]. simpl in *. subst r.
  rewrite (Hres e eq_refl). rewrite prepareElementListeners_tag in Hl.
  by exists w', l.
Qed.


Lemma render_sets_el v w v' w' e :
  render v w = (v', w', Ok e) -> _el v' = Some e.
Proof.
  unfold render. destruct (template v); [|done].
  destruct (Template_render _ _ _ _) as [w1 [e1|err]]; [|done].
  by intros [= <- _ <-].
Qed.

Lemma get_el_cached v w e : _el v = Some e -> get_el v w = (v, w, Ok e).
Proof. unfold get_el. by intros ->. Qed.

(** C7. For a View with a template that can be rendered (its model is
    there, or the template has no bound attribute): reading the accessor
    [el] twice gives the same element, which is the cached one after the
    first read. If an element was cached before, the first read returns it
    and changes nothing; if none was, the first read is [render()]: it
    creates a root element that did not exist before, returns it and caches
    it. The second read changes neither the View nor the world, so nothing
    is rendered again. Calling [render()] twice renders twice: the second
    call creates a root element that did not exist before, returns it and
    makes it the cached one. *)
Theorem el_cached_render_not_memoized (v : View) (w : world) (d : tdef) :
  template v = Some d -> renders (model v) d = true ->
  (exists e v1 w1,
     get_el v w = (v1, w1, Ok e) /\ get_el v1 w1 = (v1, w1, Ok e) /\
     _el v1 = Some e /\
     match _el v with
     | Some e0 => e = e0 /\ v1 = v /\ w1 = w
     | None =>
         render v w = (v1, w1, Ok e) /\ e = next_el w /\
         next_el w < next_el w1 /\
         exists l, log w1 = log w ++ ECreateElement e (def_tag d) :: l
     end) /\
  (exists e1 v1 w1 e2 v2 w2 l,
     render v w = (v1, w1, Ok e1) /\ render v1 w1 = (v2, w2, Ok e2) /\
     _el v1 = Some e1 /\ _el v2 = Some e2 /\
     e1 < e2 /\ e2 = next_el w1 /\ next_el w1 < next_el w2 /\
     log w2 = log w1 ++ ECreateElement e2 (def_tag d) :: l).
Proof.
  intros Ht Hm. split.
  - destruct (_el v) as [e|] eqn:He.
    + exists e, v, w. by rewrite !(get_el_cached v w e He).
    + destruct (render_returns v w d Ht Hm) as (w1 & l & Hr & _ & Hn & Hl).
      unfold get_el at 1. rewrite He, Hr.
      eexists _, _, _. split; [done|]. split; [by apply get_el_cached|].
      split; [done|]. split; [done|]. split; [done|]. split; [done|].
      by exists l.
  - destruct (render_returns v w d Ht Hm) as (w1 & l1 & Hr1 & _ & Hn1 & _).
    set (v1 := mkView _ _ _ _ _ _) in Hr1.
    destruct (render_returns v1 w1 (prepareElementListeners d) eq_refl)
      as (w2 & l2 & Hr2 & _ & Hn2 & Hl2).
    { simpl. destruct (model v); [done|]. simpl in *.
      by rewrite prepareElementListeners_unbound. }
    rewrite prepareElementListeners_tag in Hl2.
    eexists _, _, _, _, _, _, _. split; [done|]. split; [done|].
    split; [done|]. split; [done|]. split; [done|]. split; [done|].
    split; [done|]. apply Hl2.
Qed.

(** ** Destroying *)

Lemma View_ind' (P : View -> Prop) :
  (forall id m rs el t ct,
     Forall (fun kv => P kv.2) rs -> P (mkView id m rs el t ct)) ->
  forall v, P v.
Proof.
  intros H. fix IH 1. intros [id m rs el t ct]. apply H.
  induction rs as [|[name r] rs IHrs]; constructor; [apply IH|apply IHrs].
Qed.

Lemma destroy_unfold v w :
  destroy v w =
    match remove_el (set_model None v) w with
    | (v1, w1, Throw err) => (v1, w1, Throw err)
    | (v1, w1, Ok _) =>
        match regions_forEach destroy (vid v) (regions v) (regions v) w1 with
        | (rs', w2, Throw err) => (set_regions rs' v1, w2, Throw err)
        | (rs', w2, Ok _) =>
            (set_regions rs' v1, stopListening (vid v) w2, Ok tt)
        end
    end.
Proof. by destruct v. Qed.

Lemma render_model v w : model (render v w).1.1 = model v.
Proof.
  unfold render, prepareListeners. destruct (template v); simpl; [|done].
  by destruct (renderElement _ _ _ _) as [w' [e|err]].
Qed.

Lemma render_regions v w : regions (render v w).1.1 = regions v.
Proof.
  unfold render, prepareListeners. destruct (template v); simpl; [|done].
  by destruct (renderElement _ _ _ _) as [w' [e|err]].
Qed.

Lemma render_log v w : exists l, log (render v w).1.2 = log w ++ l.
Proof.
  unfold render, prepareListeners. destruct (template v) as [d|]; simpl.
  - destruct (W_grows_renderElement (vid v) (model v)
                (prepareElementListeners d) w) as (_ & Hl & _).
    by destruct (renderElement _ _ _ _) as [w' [e|err]].
  - exists []. by rewrite app_nil_r.
Qed.

Lemma remove_el_model v w : model (remove_el v w).1.1 = model v.
Proof.
  unfold remove_el, get_el. destruct (template v); [|done].
  destruct (_el v); [done|]. pose proof (render_model v w) as H.
  by destruct (render v w) as [[v' w'] [e|err]].
Qed.

Lemma remove_el_regions v w : regions (remove_el v w).1.1 = regions v.
Proof.
  unfold remove_el, get_el. destruct (template v); [|done].
  destruct (_el v); [done|]. pose proof (render_regions v w) as H.
  by destruct (render v w) as [[v' w'] [e|err]].
Qed.

Lemma remove_el_log v w : exists l, log (remove_el v w).1.2 = log w ++ l.
Proof.
  unfold remove_el, get_el. destruct (template v);
    [|exists []; by rewrite app_nil_r].
  destruct (_el v) as [e|]; [by exists [ERemove e]|].
  destruct (render_log v w) as [l Hl].
  destruct (render v w) as [[v' w'] [e|err]]; simpl in *.
  - exists (l ++ [ERemove e]). by rewrite Hl, <-app_assoc.
  - by exists l.
Qed.

(** The loop over the regions, when the [destroy] of every region it visits
    only adds to the log and, returning, has [stopListening()] as its last
    step. *)
Lemma regions_forEach_log (dr : View -> world -> View * world * result unit)
    this l cur w :
  Forall (fun kv => forall w0,
            exists l0, log (dr kv.2 w0).1.2 = log w0 ++ l0 /\
                       ((dr kv.2 w0).2 = Ok tt ->
                        exists l1, l0 = l1 ++ [EStopListening (vid kv.2)])) l ->
  exists body,
    log (regions_forEach dr this l cur w).1.2 = log w ++ body /\
    ((regions_forEach dr this l cur w).2 = Ok tt ->
     (forall kv, kv ∈ (regions_forEach dr this l cur w).1.1 ->
                 kv ∈ cur /\ kv.1 ∉ l.*1) /\
     forall name r, (name, r) ∈ l ->
       exists l1 l2 l3,
         body = l1 ++ ERegionRemove this name :: l2
                   ++ EStopListening (vid r) :: l3).
Proof.
  intros Hl. revert cur w.
  induction Hl as [|[name r] l Hr _ IH]; intros cur w; simpl.
  - exists []. rewrite app_nil_r. split; [done|]. intros _. split.
    + intros kv Hkv. split; [done|]. apply not_elem_of_nil.
    + intros n r' Hin. by apply elem_of_nil in Hin.
  - simpl in Hr.
    destruct (Hr (emit (ERegionRemove this name) w)) as (l0 & Hl0 & Hok).
    destruct (dr r _) as [[r' w2] [[]|err]]; simpl in *.
    + destruct (Hok eq_refl) as [l1 ->].
      destruct (IH (nc_remove name cur) w2) as (body & Hb & Hrest).
      exists (ERegionRemove this name :: l1 ++ EStopListening (vid r) :: body).
      split.
      { rewrite Hb, Hl0. app_norm. }
      intros Hres. destruct (Hrest Hres) as [Hcur Hall]. split.
      * intros kv Hkv. destruct (Hcur kv Hkv) as [Hin Hnot].
        apply list_elem_of_filter in Hin as [Hne Hin]. split; [done|].
        apply not_elem_of_cons. by split.
      * intros n r0 Hin. apply elem_of_cons in Hin as [[= -> ->]|Hin].
        -- by exists [], l1, body.
        -- destruct (Hall n r0 Hin) as (k1 & k2 & k3 & ->).
           exists (ERegionRemove this name :: l1
                     ++ EStopListening (vid r) :: k1), k2, k3.
           simpl. by rewrite <-app_assoc.
    + exists (ERegionRemove this name :: l0). split; [|done].
      rewrite Hl0. by rewrite <-app_assoc.
Qed.

Lemma destroy_log v :
  forall w, exists l, log (destroy v w).1.2 = log w ++ l /\
                      ((destroy v w).2 = Ok tt ->
                       exists l1, l = l1 ++ [EStopListening (vid v)]).
Proof.
  induction v as [id m rs el t ct IH] using View_ind'. intros w.
  rewrite destroy_unfold. simpl vid. simpl regions.
  destruct (remove_el_log (set_model None (mkView id m rs el t ct)) w)
    as [l1 Hl1].
  destruct (remove_el _ w) as [[v1 w1] [[]|err]]; simpl in Hl1;
    [|by exists l1].
  destruct (regions_forEach_log destroy id rs rs w1 IH) as (body & Hb & _).
  destruct (regions_forEach _ _ _ _ _) as [[rs' w2] [[]|err]]; simpl in *.
  - exists (l1 ++ body ++ [EStopListening id]). split.
    + by rewrite Hb, Hl1, <-!app_assoc.
    + intros _. exists (l1 ++ body). by rewrite <-app_assoc.
  - exists (l1 ++ body). split; [|done]. by rewrite Hb, Hl1, <-app_assoc.
Qed.

Lemma destroy_model v w : model (destroy v w).1.1 = None.
Proof.
  rewrite destroy_unfold.
  pose proof (remove_el_model (set_model None v) w) as Hm.
  destruct (remove_el _ w) as [[v1 w1] [[]|err]]; simpl in Hm; [|done].
  by destruct (regions_forEach _ _ _ _ _) as [[rs' w2] [[]|err]].
Qed.

Lemma result_if_bind {A B} (m : W A) (k : A -> W B) b1 b2 w :
  result_if (m w).2 b1 -> (forall a w', result_if (k a w').2 b2) ->
  result_if (wbind m k w).2 (b1 && b2).
Proof.
  unfold wbind. intros Hm Hk. destruct (m w) as [w' [a|e]]; simpl in *.
  - subst b1. apply Hk.
  - by destruct Hm as [-> ->].
Qed.

Lemma result_if_foreach {A} (f : A -> W unit) (p : A -> bool) l :
  (forall x w, result_if (f x w).2 (p x)) ->
  forall w, result_if (wforeach f l w).2 (forallb p l).
Proof.
  intros Hf. induction l as [|x l IH]; intros w; simpl; [done|].
  apply result_if_bind; auto.
Qed.

Lemma result_if_total {A} (m : W A) w : W_total m -> result_if (m w).2 true.
Proof. intros Hm. destruct (Hm w) as [a ->]. done. Qed.

Lemma result_if_renderChildren rc (p : tdef -> bool) el cs :
  Forall (fun c => forall w, result_if (rc c w).2 (p c)) cs ->
  forall w, result_if (renderChildren rc el cs w).2 (forallb p cs).
Proof.
  induction 1 as [|c cs Hc _ IH]; intros w; simpl; [done|].
  apply result_if_bind; [done|]. intros child w'.
  apply (result_if_bind _ _ true); [done|]. intros _ w''. apply IH.
Qed.

(** Without the model, rendering a prepared definition returns if the
    definition has no bound attribute, and throws a [TypeError] if it has
    one. *)
Lemma result_if_renderElement this d :
  prepared d = true ->
  forall w, result_if (renderElement this None d w).2 (unbound d).
Proof.
  induction d as [tag attributes on children IH] using tdef_ind'.
  intros [Hon Hcs]%andb_true_iff w. simpl renderElement. simpl unbound.
  apply (result_if_bind _ _ true); [done|]. intros el w1.
  unfold renderInto. apply result_if_bind.
  { apply result_if_foreach. intros kv w2.
    unfold renderAttribute, attr_unbound. by destruct kv.2. }
  intros _ w2.
  replace (match children with Some cs => forallb unbound cs | None => true end)
    with (match children with Some cs => forallb unbound cs | None => true end
          && true) by apply andb_true_r.
  apply result_if_bind.
  { destruct children as [cs|]; [|done]. simpl in *.
    apply result_if_renderChildren.
    rewrite forallb_forall in Hcs. rewrite Forall_forall in IH.
    apply Forall_forall. intros c Hc. apply IH; [done|].
    apply Hcs. by apply list_elem_of_In. }
  intros _ w3. apply (result_if_bind _ _ true true); [|done].
  destruct on as [o|]; [|done]. apply result_if_total.
  apply W_total_foreach. rewrite forallb_forall in Hon.
  apply Forall_forall. intros kv Hkv. apply W_total_attachListeners.
  apply Hon. by apply list_elem_of_In.
Qed.

Lemma result_if_remove_el v w :
  model v = None ->
  result_if (remove_el v w).2
            match template v, _el v with
            | Some d, None => unbound d
            | _, _ => true
            end.
Proof.
  intros Hm. unfold remove_el, get_el, render, prepareListeners.
  destruct (template v) as [d|] eqn:Ht; [|done].
  destruct (_el v) as [e|] eqn:He; [done|]. simpl. rewrite Hm.
  pose proof (result_if_renderElement (vid v) (prepareElementListeners d)
                (prepareElementListeners_prepared d) w) as Hr.
  rewrite prepareElementListeners_unbound in Hr.
  by destruct (renderElement _ _ _ w) as [w' [e|err]].
Qed.

Lemma result_if_regions_forEach
    (dr : View -> world -> View * world * result unit)
    (p : View -> bool) this l cur w :
  Forall (fun kv => forall w0, result_if (dr kv.2 w0).2 (p kv.2)) l ->
  result_if (regions_forEach dr this l cur w).2
            (forallb (fun kv => p kv.2) l).
Proof.
  intros Hl. revert cur w.
  induction Hl as [|[name r] l Hr _ IH]; intros cur w; simpl; [done|].
  simpl in Hr. specialize (Hr (emit (ERegionRemove this name) w)).
  destruct (dr r _) as [[r' w2] [[]|err]]; simpl in *.
  - rewrite Hr. apply IH.
  - by destruct Hr as [-> ->].
Qed.

(** [destroy()] returns exactly for the Views that [destroy_returns]
    describes; otherwise it throws a [TypeError]. *)
Lemma result_if_destroy v :
  forall w, result_if (destroy v w).2 (destroy_returns v).
Proof.
  induction v as [id m rs el t ct IH] using View_ind'. intros w.
  rewrite destroy_unfold. simpl vid. simpl regions. simpl destroy_returns.
  pose proof (result_if_remove_el (set_model None (mkView id m rs el t ct)) w
                eq_refl) as Hrem.
  simpl in Hrem.
  destruct (remove_el _ w) as [[v1 w1] [[]|err]]; simpl in Hrem;
    [|by destruct Hrem as [-> ->]].
  rewrite Hrem.
  pose proof (result_if_regions_forEach destroy destroy_returns id rs rs w1 IH)
    as Hloop.
  by destruct (regions_forEach _ _ _ _ _) as [[rs' w2] [[]|err]].
Qed.

Lemma remove_el_returns v w :
  match template v, _el v with
  | Some d, None => renders (model v) d
  | _, _ => true
  end = true ->
  (remove_el v w).2 = Ok tt.
Proof.
  unfold remove_el, get_el. destruct (template v) as [d|] eqn:Ht; [|done].
  destruct (_el v) as [e|] eqn:He; [done|]. intros Hr.
  by destruct (render_returns v w d Ht Hr) as (w' & l & -> & _).
Qed.

Lemma destroy_returns_iff v w :
  (destroy v w).2 = Ok tt <-> destroy_returns v = true.
Proof.
  pose proof (result_if_destroy v w) as H.
  destruct (destroy v w) as [[v' w'] [[]|err]]; simpl in *.
  - by rewrite H.
  - destruct H as [-> _]. done.
Qed.

(** Rendering logs events of rendering only. *)
Lemma W_logs_ret {A} (a : A) : W_logs (wret a).
Proof. intros w. exists []. by rewrite app_nil_r. Qed.

Lemma W_logs_throw {A} e : W_logs (@wthrow A e).
Proof. intros w. exists []. by rewrite app_nil_r. Qed.

Lemma W_logs_emit ev : render_event ev = true -> W_logs (wdo (emit ev)).
Proof. intros H w. exists [ev]. simpl. by rewrite H. Qed.

Lemma W_logs_bind {A B} (m : W A) (k : A -> W B) :
  W_logs m -> (forall a, W_logs (k a)) -> W_logs (wbind m k).
Proof.
  intros Hm Hk w. unfold wbind. destruct (Hm w) as (l & Hl & Hall).
  destruct (m w) as [w1 [a|e]]; simpl in *; [|by exists l].
  destruct (Hk a w1) as (l' & Hl' & Hall').
  exists (l ++ l'). rewrite Hl', Hl, <-app_assoc. split; [done|].
  rewrite forallb_app. by rewrite Hall, Hall'.
Qed.

Lemma W_logs_foreach {A} (f : A -> W unit) l :
  (forall x, W_logs (f x)) -> W_logs (wforeach f l).
Proof.
  intros Hf. induction l as [|x l IH]; simpl.
  - apply W_logs_ret.
  - by apply W_logs_bind.
Qed.

Lemma W_logs_bind_attach this m f el upd :
  W_logs (bind_attach this m f el upd).
Proof.
  unfold bind_attach. apply W_logs_bind.
  { intros w. exists []. rewrite app_nil_r. split; [|done].
    unfold wdo, default_callback. simpl. by destruct (cells w !! bf_cell f). }
  intros _. destruct m as [m|]; [|apply W_logs_throw].
  apply W_logs_bind.
  { intros w. by eexists [_]. }
  intros _ w. unfold onModelChange.
  destruct (cells w !! bf_cell f) as [cb|];
    [|exists []; by rewrite app_nil_r].
  destruct (typeof_not_undefined _); simpl.
  - eexists [_; _]. by rewrite <-app_assoc.
  - by eexists [_].
Qed.

Lemma W_logs_renderAttribute this m el kv :
  W_logs (renderAttribute this m el kv).
Proof.
  unfold renderAttribute. destruct kv.2.
  - by apply W_logs_emit.
  - apply W_logs_bind_attach.
Qed.

Lemma W_logs_call_on_function this f el name sel :
  W_logs (call_on_function this f el name sel).
Proof.
  destruct f; simpl.
  - apply W_logs_throw.
  - by apply W_logs_emit.
  - intros w. by eexists [_].
Qed.

Lemma W_logs_attachListeners this el kv :
  W_logs (attachListeners this el kv).
Proof.
  unfold attachListeners. destruct kv.2.
  - apply W_logs_call_on_function.
  - apply W_logs_foreach. intros f. apply W_logs_call_on_function.
Qed.

Lemma W_logs_renderChildren rc el cs :
  Forall (fun c => W_logs (rc c)) cs -> W_logs (renderChildren rc el cs).
Proof.
  induction 1 as [|c cs Hc _ IH]; simpl; [apply W_logs_ret|].
  apply W_logs_bind; [done|]. intros child.
  apply W_logs_bind; [by apply W_logs_emit|]. by intros _.
Qed.

Lemma W_logs_renderElement this m d : W_logs (renderElement this m d).
Proof.
  induction d as [tag attributes on children IH] using tdef_ind'; simpl.
  apply W_logs_bind.
  { intros w. by eexists [_]. }
  intros el. unfold renderInto.
  apply W_logs_bind.
  { apply W_logs_foreach. intros kv. apply W_logs_renderAttribute. }
  intros _. apply W_logs_bind.
  { destruct children; [by apply W_logs_renderChildren|apply W_logs_ret]. }
  intros _. apply W_logs_bind; [|intros _; apply W_logs_ret].
  destruct on; [|apply W_logs_ret].
  apply W_logs_foreach. intros kv. apply W_logs_attachListeners.
Qed.

Lemma render_logs v w :
  exists l, log (render v w).1.2 = log w ++ l /\
            forallb render_event l = true.
Proof.
  unfold render, prepareListeners. destruct (template v) as [d|]; simpl.
  - destruct (W_logs_renderElement (vid v) (model v)
                (prepareElementListeners d) w) as (l & Hl & Hall).
    exists l. by destruct (renderElement _ _ _ _) as [w' [e|err]].
  - exists []. by rewrite app_nil_r.
Qed.

(** [render()] of a View whose model is gone and whose template has a bound
    attribute throws a [TypeError]. *)
Lemma render_bound_throws v w d :
  template v = Some d -> model v = None -> unbound d = false ->
  (render v w).2 = Throw TypeError.
Proof.
  intros Ht Hm Hu. unfold render, prepareListeners. rewrite Ht. simpl.
  rewrite Hm.
  pose proof (result_if_renderElement (vid v) (prepareElementListeners d)
                (prepareElementListeners_prepared d) w) as Hr.
  rewrite prepareElementListeners_unbound, Hu in Hr.
  destruct (renderElement _ _ _ w) as [w' [e|err]]; simpl in *; [done|].
  by destruct Hr as [_ ->].
Qed.

(** C8. Not every call of [destroy()] gets to the regions and to
    [stopListening()]. For every View that has a template with a bound
    attribute and was never rendered, [destroy()] drops the model, then
    reads the accessor [el], whose [render()] needs the model: the call
    throws a [TypeError] there. The model reference is null, but every
    region is still in the collection, untouched; what the call has logged
    are events of the rendering it began, none of them the removal of a
    region or the [stopListening()] of any View; and every subscription on
    the model and on elements that was there before the call is still
    there. *)
Theorem destroy_throws_before_regions (v : View) (w : world) (d : tdef) :
  template v = Some d -> _el v = None -> unbound d = false ->
  exists v' w' l,
    destroy v w = (v', w', Throw TypeError) /\
    model v' = None /\
    regions v' = regions v /\
    _el v' = None /\
    log w' = log w ++ l /\
    forallb render_event l = true /\
    (forall x name, ERegionRemove x name ∉ l) /\
    (forall x, EStopListening x ∉ l) /\
    (exists ms, model_subs w' = model_subs w ++ ms) /\
    (exists ds, dom_subs w' = dom_subs w ++ ds).
Proof.
  intros Ht He Hu.
  pose proof (render_bound_throws (set_model None v) w d Ht eq_refl Hu)
    as Hthrow.
  pose proof (render_model (set_model None v) w) as Hm.
  pose proof (render_regions (set_model None v) w) as Hrs.
  destruct (render_logs (set_model None v) w) as (l & Hl & Hall).
  assert (grows w (render (set_model None v) w).1.2)
    as (_ & _ & Hds & Hms & _).
  { unfold render, prepareListeners. simpl. rewrite Ht. simpl.
    pose proof (W_grows_renderElement (vid v) None
                  (prepareElementListeners d) w) as Hg.
    by destruct (renderElement _ _ _ _) as [w' [e|err]]. }
  assert (_el (render (set_model None v) w).1.1 = None) as Hel.
  { unfold render, prepareListeners in *. simpl in *. rewrite Ht in *.
    simpl in *. by destruct (renderElement _ _ _ _) as [w' [e|err]]. }
  destruct (render (set_model None v) w) as [[v1 w1] r] eqn:Hr.
  simpl in *. subst r.
  exists v1, w1, l.
  split.
  { rewrite destroy_unfold. unfold remove_el, get_el. simpl.
    by rewrite Ht, He, Hr. }
  split; [done|]. split; [done|]. split; [done|]. split; [done|].
  split; [done|].
  assert (forall ev, ev ∈ l -> render_event ev = true) as Hev.
  { intros ev Hin. apply list_elem_of_In in Hin.
    by apply (proj1 (forallb_forall _ _) Hall). }
  split; [|split; [|done]].
  - intros x name Hin. by apply Hev in Hin.
  - intros x Hin. by apply Hev in Hin.
Qed.

(** The calls of [destroy()] that return. A call of [destroy()] leaves the
    model reference null, whether it returns or throws; it returns unless
    the View, or a region below it, has to be rendered from a template with
    bound attributes, and throws a [TypeError] then. When it returns, the
    collection of regions is empty and the log has grown by a body followed
    by the View's own [stopListening()], which is the last step; for every
    region the View owned, the body holds the removal of the region from
    the collection and, after it, the [stopListening()] that ends the
    region's own [destroy()]. *)
Lemma destroy_regions_before_stopListening (v : View) (w : world) :
  model (destroy v w).1.1 = None /\
  ((destroy v w).2 = Ok tt <-> destroy_returns v = true) /\
  forall v' w',
    destroy v w = (v', w', Ok tt) ->
    model v' = None /\
    regions v' = [] /\
    exists body,
      log w' = log w ++ body ++ [EStopListening (vid v)] /\
      forall name r, (name, r) ∈ regions v ->
        exists l1 l2 l3,
          body = l1 ++ ERegionRemove (vid v) name :: l2
                    ++ EStopListening (vid r) :: l3.
Proof.
  split; [apply destroy_model|].
  split; [apply destroy_returns_iff|].
  intros v' w' Hd.
  split; [by rewrite <-(destroy_model v w), Hd|].
  rewrite destroy_unfold in Hd.
  destruct (remove_el_log (set_model None v) w) as [l1 Hl1].
  destruct (remove_el _ w) as [[v1 w1] [[]|err]]; simpl in Hl1; [|done].
  destruct (regions_forEach_log destroy (vid v) (regions v) (regions v) w1)
    as (body & Hb & Hok).
  { apply Forall_forall. intros kv _ w0. apply destroy_log. }
  destruct (regions_forEach _ _ _ _ _) as [[rs' w2] [[]|err]]; [|done].
  simpl in *. injection Hd as <- <-.
  destruct (Hok eq_refl) as [Hcur Hall]. split.
  - simpl. destruct rs' as [|kv rs']; [done|]. exfalso.
    destruct (Hcur kv) as [Hin Hnot]; [apply elem_of_cons; by left|].
    apply Hnot. apply list_elem_of_fmap. by exists kv.
  - exists (l1 ++ body). split.
    + simpl. by rewrite Hb, Hl1, <-!app_assoc.
    + intros name r Hin. destruct (Hall name r Hin) as (k1 & k2 & k3 & ->).
      exists (l1 ++ k1), k2, k3. by rewrite <-app_assoc.
Qed.

Lemma get_el_sets_el v w v' w' e :
  get_el v w = (v', w', Ok e) -> _el v' = Some e.
Proof.
  unfold get_el. destruct (_el v) as [e0|] eqn:He.
  - by intros [= <- _ <-].
  - apply render_sets_el.
Qed.

Lemma destroy_keeps_el v w e :
  _el v = Some e -> _el (destroy v w).1.1 = Some e.
Proof.
  intros He. rewrite destroy_unfold. unfold remove_el.
  destruct (template (set_model None v)).
  - rewrite (get_el_cached (set_model None v) w e He).
    by destruct (regions_forEach _ _ _ _ _) as [[rs' w2] [[]|err]].
  - by destruct (regions_forEach _ _ _ _ _) as [[rs' w2] [[]|err]].
Qed.

(** C9. Once [render()] or the accessor [el] has returned the element [e],
    the View can be destroyed (in any later world, whether [destroy()]
    returns or throws): reading [el] afterwards does not throw, returns the
    same [e] and renders nothing. *)
Theorem el_after_destroy
    (v0 : View) (w0 : world) (v : View) (w : world) (e : elem) :
  render v0 w0 = (v, w, Ok e) \/ get_el v0 w0 = (v, w, Ok e) ->
  forall w1 w2,
    get_el (destroy v w1).1.1 w2 = ((destroy v w1).1.1, w2, Ok e).
Proof.
  intros Hel w1 w2. apply get_el_cached, destroy_keeps_el.
  destruct Hel as [Hr|Hel];
    [by apply render_sets_el in Hr|by apply get_el_sets_el in Hel].
Qed.

(** When the [render()] that [destroy()] sets off throws, [destroy()] ends
    there with the same error. *)
Lemma destroy_unrendered_render_throws v w d v1 w1 err :
  template v = Some d -> _el v = None ->
  render (set_model None v) w = (v1, w1, Throw err) ->
  destroy v w = (v1, w1, Throw err).
Proof.
  intros Ht He Hr. rewrite destroy_unfold. unfold remove_el, get_el.
  simpl. by rewrite Ht, He, Hr.
Qed.


(** ** Preparing the listeners twice *)

Lemma listener_log that selector a domEvt w :
  exists l, log (listener that selector a domEvt w) = log w ++ l.
Proof.
  unfold listener. destruct (_ || _).
  - destruct (listener_action_log that a domEvt w) as [ev Hev].
    by exists [ev].
  - exists []. by rewrite app_nil_r.
Qed.

Lemma run_listeners_cons s L domEvt w :
  run_listeners (s :: L) domEvt w
  = run_listeners L domEvt
      (listener (ds_owner s) (ds_selector s) (ds_action s) domEvt w).
Proof. done. Qed.

Lemma run_listeners_log L domEvt w :
  exists l, log (run_listeners L domEvt w) = log w ++ l.
Proof.
  revert w. induction L as [|s L IH]; intros w.
  - exists []. simpl. by rewrite app_nil_r.
  - rewrite run_listeners_cons.
    destruct (listener_log (ds_owner s) (ds_selector s) (ds_action s)
                domEvt w) as [l1 Hl1].
    destruct (IH (listener (ds_owner s) (ds_selector s) (ds_action s)
                    domEvt w)) as [l2 Hl2].
    exists (l1 ++ l2). rewrite Hl2, Hl1. app_norm.
Qed.

(** A listener whose action is an attacher, run on an event that passes its
    selector test, hands the event to the attacher as the element. *)
Lemma run_listeners_calls_attacher L domEvt w s a :
  s ∈ L -> ds_action s = AAttacher a ->
  selector_falsy (ds_selector s)
  || matches (de_target domEvt) (default EmptyString (ds_selector s)) = true ->
  EListenToDom (DomSub (ds_owner s) (EmEvt domEvt) None None a)
  ∈ log (run_listeners L domEvt w).
Proof.
  intros Hs Ha Hcond. revert w.
  induction L as [|s' L IH]; intros w; [by apply elem_of_nil in Hs|].
  rewrite run_listeners_cons.
  apply elem_of_cons in Hs as [<-|Hs]; [|by apply IH].
  destruct (run_listeners_log L domEvt
              (listener (ds_owner s) (ds_selector s) (ds_action s) domEvt w))
    as [l Hl].
  rewrite Hl. apply elem_of_app; left.
  unfold listener. rewrite Hcond, Ha. simpl.
  apply elem_of_app; right. by apply list_elem_of_singleton.
Qed.

Lemma call_on_function_subs this fs el name sel a w w' :
  wforeach (fun f => call_on_function this f el name sel) fs w
  = (w', Ok tt) ->
  AAttacher a ∈ fs ->
  DomSub this (EmElem el) (Some name) sel a ∈ dom_subs w'.
Proof.
  revert w. induction fs as [|f fs IH]; intros w Hrun Hin;
    [by apply elem_of_nil in Hin|].
  simpl in Hrun. apply wbind_ok_inv in Hrun as ([] & w1 & Hf & Hrest).
  apply elem_of_cons in Hin as [<-|Hin]; [|by eapply IH].
  simpl in Hf. injection Hf as <-.
  pose proof (W_grows_foreach
                (fun f => call_on_function this f el name sel) fs
                (fun f => W_grows_call_on_function this f el name sel)
                (attacher this a (EmElem el) (Some name) sel w))
    as (_ & _ & [ds Hds] & _).
  rewrite Hrest in Hds. simpl in Hds. rewrite Hds.
  apply elem_of_app; left. apply elem_of_app; right.
  by apply list_elem_of_singleton.
Qed.

Lemma attachListeners_subs this el o key val a w w' :
  wforeach (attachListeners this el) o w = (w', Ok tt) ->
  (key, val) ∈ o -> AAttacher a ∈ on_items val ->
  DomSub this (EmElem el) (Some (split_key key).1) (split_key key).2 a
  ∈ dom_subs w'.
Proof.
  revert w. induction o as [|kv o IH]; intros w Hrun Hin Ha;
    [by apply elem_of_nil in Hin|].
  simpl in Hrun. apply wbind_ok_inv in Hrun as ([] & w1 & Hkv & Hrest).
  apply elem_of_cons in Hin as [<-|Hin]; [|by eapply IH].
  assert (DomSub this (EmElem el) (Some (split_key key).1) (split_key key).2 a
          ∈ dom_subs w1) as Hw1.
  { unfold attachListeners in Hkv. simpl in Hkv. destruct val as [f|fs].
    - apply (call_on_function_subs this [f] el _ _ a w w1); [|done].
      simpl. unfold wbind. by rewrite Hkv.
    - by apply (call_on_function_subs this fs el _ _ a w w1). }
  pose proof (W_grows_foreach (attachListeners this el) o
                (W_grows_attachListeners this el) w1)
    as (_ & _ & [ds Hds] & _).
  rewrite Hrest in Hds. simpl in Hds. rewrite Hds.
  apply elem_of_app; by left.
Qed.

(** The listeners of the root node are subscribed on the element that
    rendering the definition returns. *)
Lemma renderElement_root_subs this m d o key val a w w' e :
  renderElement this m d w = (w', Ok e) ->
  def_on d = Some o -> (key, val) ∈ o -> AAttacher a ∈ on_items val ->
  DomSub this (EmElem e) (Some (split_key key).1) (split_key key).2 a
  ∈ dom_subs w'.
Proof.
  destruct d as [tag attributes on children]. simpl. intros Hrun -> Hin Ha.
  apply wbind_ok_inv in Hrun as (el & w1 & _ & Hrun).
  pose proof (renderInto_returns_el _ _ _ _ _ _ _ _ _ _ Hrun) as ->.
  unfold renderInto in Hrun.
  apply wbind_ok_inv in Hrun as (_ & w2 & _ & Hrun).
  apply wbind_ok_inv in Hrun as (_ & w3 & _ & Hrun).
  apply wbind_ok_inv in Hrun as ([] & w4 & Hon & Hret).
  injection Hret as <-. by eapply attachListeners_subs.
Qed.

Lemma prepare_on_value_items x a :
  a ∈ on_items x ->
  AAttacher a ∈ on_items (prepare_on_value x) /\
  AAttacher (AAttacher a) ∈ on_items (prepare_on_value (prepare_on_value x)).
Proof.
  destruct x as [b|l]; simpl.
  - intros ->%list_elem_of_singleton.
    split; by apply list_elem_of_singleton.
  - intros Ha. split.
    + apply list_elem_of_fmap. by exists a.
    + apply list_elem_of_fmap. exists (AAttacher a). split; [done|].
      apply list_elem_of_fmap. by exists a.
Qed.

Lemma action_wrap_ne a : AAttacher a <> a.
Proof. induction a; congruence. Qed.

(** A second pass over an entry that has an item changes it again. *)
Lemma prepare_on_value_twice_ne x a :
  a ∈ on_items x ->
  prepare_on_value (prepare_on_value x) <> prepare_on_value x.
Proof.
  destruct x as [b|l]; simpl.
  - intros _ [= H]. by apply action_wrap_ne in H.
  - intros Ha [= H]. destruct l as [|b l]; [by apply elem_of_nil in Ha|].
    simpl in H. injection H as H _. by apply action_wrap_ne in H.
Qed.

Lemma prepareElementListeners_on d :
  def_on (prepareElementListeners d)
  = (fun o => map (fun kv => (kv.1, prepare_on_value kv.2)) o) <$> def_on d.
Proof. destruct d as [tag attributes [o|] children]; done. Qed.

(** C10. Every pass of [prepareElementListeners] replaces each value of the
    [on] map of a node, and of the nodes below it, by attachers of what is
    there, so a second pass is not a repetition of the first: an entry that
    has an item [a] holds [AAttacher a] after one [render()] and
    [AAttacher (AAttacher a)] after two. The listener the second [render()]
    subscribes on its root element therefore has the first-pass attacher as
    its action: on a native event that passes the selector test it calls
    that attacher with the event in the place of the element (and nothing
    for event name and selector), which subscribes yet another listener, on
    the event object. *)
Theorem second_render_wraps_attachers
    (v : View) (w : world) (d : tdef)
    (o : list (string * on_value)) (key : string) (val : on_value)
    (a : action) (domEvt : dom_event) :
  template v = Some d -> renders (model v) d = true ->
  def_on d = Some o -> (key, val) ∈ o -> a ∈ on_items val ->
  def_on (prepareElementListeners d)
  = Some (map (fun kv => (kv.1, prepare_on_value kv.2)) o) /\
  def_on (prepareElementListeners (prepareElementListeners d))
  = Some (map (fun kv => (kv.1, prepare_on_value (prepare_on_value kv.2)))
              o) /\
  def_children (prepareElementListeners d)
  = map prepareElementListeners <$> def_children d /\
  AAttacher (AAttacher a)
  ∈ on_items (prepare_on_value (prepare_on_value val)) /\
  prepareElementListeners (prepareElementListeners d)
  <> prepareElementListeners d /\
  exists v1 w1 e1 v2 w2 e2,
    render v w = (v1, w1, Ok e1) /\
    render v1 w1 = (v2, w2, Ok e2) /\
    template v1 = Some (prepareElementListeners d) /\
    template v2 = Some (prepareElementListeners (prepareElementListeners d)) /\
    DomSub (vid v) (EmElem e2) (Some (split_key key).1) (split_key key).2
           (AAttacher a) ∈ dom_subs w2 /\
    (forall w',
       listener_action (vid v) (AAttacher a) domEvt w'
       = listenTo_dom (DomSub (vid v) (EmEvt domEvt) None None a) w') /\
    (selector_falsy (split_key key).2
     || matches (de_target domEvt) (default EmptyString (split_key key).2)
     = true ->
     EListenToDom (DomSub (vid v) (EmEvt domEvt) None None a)
     ∈ log (dispatch e2 (split_key key).1 domEvt w2)).
Proof.
  intros Ht Hm Ho Hin Ha.
  assert (def_on (prepareElementListeners d)
          = Some (map (fun kv => (kv.1, prepare_on_value kv.2)) o)) as Ho1.
  { by rewrite prepareElementListeners_on, Ho. }
  assert (def_on (prepareElementListeners (prepareElementListeners d))
          = Some (map (fun kv => (kv.1, prepare_on_value
                                          (prepare_on_value kv.2))) o))
    as Ho2.
  { rewrite prepareElementListeners_on, Ho1. simpl. by rewrite map_map. }
  destruct (prepare_on_value_items val a Ha) as [_ Ha2].
  split; [done|]. split; [done|].
  split; [by destruct d as [tag attributes on [cs|]]|].
  split; [done|]. split.
  { intros Heq. rewrite Heq, Ho1 in Ho2. injection Ho2 as Ho2.
    rewrite map_ext_in_iff in Ho2.
    specialize (Ho2 (key, val)). simpl in Ho2.
    apply list_elem_of_In in Hin. specialize (Ho2 Hin).
    injection Ho2 as Ho2. symmetry in Ho2.
    by apply (prepare_on_value_twice_ne val a Ha). }
  destruct (render_returns v w d Ht Hm) as (w1 & l1 & Hr1 & _ & _ & _).
  set (v1 := mkView _ _ _ _ _ _) in Hr1.
  destruct (render_returns v1 w1 (prepareElementListeners d) eq_refl)
    as (w2 & l2 & Hr2 & Hre2 & _ & _).
  { simpl. destruct (model v); [done|]. simpl in *.
    by rewrite prepareElementListeners_unbound. }
  assert (DomSub (vid v) (EmElem (next_el w1)) (Some (split_key key).1)
                 (split_key key).2 (AAttacher a) ∈ dom_subs w2) as Hsub.
  { apply (renderElement_root_subs _ _ _ _ key
             (prepare_on_value (prepare_on_value val)) _ _ _ _ Hre2 Ho2);
      [|done].
    apply list_elem_of_fmap. by exists (key, val). }
  eexists _, _, _, _, _, _. split; [done|]. split; [done|].
  split; [done|]. split; [done|]. split; [done|]. split; [done|].
  intros Hcond. unfold dispatch.
  apply (run_listeners_calls_attacher _ domEvt w2
           (DomSub (vid v) (EmElem (next_el w1)) (Some (split_key key).1)
                   (split_key key).2 (AAttacher a)) a); [|done|done].
  apply list_elem_of_filter. by split.
Qed.

(** * Further properties *)

(** ** prepareListeners *)

Lemma unprepare_prepare d :
  unprepareElementListeners (prepareElementListeners d) = d.
Proof.
  induction d as [tag attributes on children IH] using tdef_ind'; simpl.
  f_equal.
  - destruct on as [o|]; [|done]. f_equal. rewrite map_map.
    rewrite <-(map_id o) at 2. apply map_ext. intros [key val]. simpl.
    f_equal. destruct val as [a|l]; simpl; [done|].
    f_equal. rewrite map_map. by rewrite map_id.
  - destruct children as [cs|]; [|done]. f_equal. simpl in IH.
    rewrite map_map. induction IH as [|c cs Hc _ IHcs]; [done|].
    simpl. by rewrite Hc, IHcs.
Qed.

(** X1. [prepareElementListeners] loses nothing and leaves nothing
    unprepared: in every node of the tree, tag, attributes, the keys of the
    [on] map and the children stay, every value of an [on] map becomes a
    function (an attacher, or an array of attachers of the same length),
    and unwrapping the attachers gives back the definition that went in;
    so two definitions that differ are still different when prepared. *)
Theorem prepareElementListeners_round_trip (d : tdef) :
  unprepareElementListeners (prepareElementListeners d) = d /\
  prepared (prepareElementListeners d) = true /\
  forall d', prepareElementListeners d' = prepareElementListeners d ->
             d' = d.
Proof.
  split; [apply unprepare_prepare|].
  split; [apply prepareElementListeners_prepared|].
  intros d' Heq. apply (f_equal unprepareElementListeners) in Heq.
  by rewrite !unprepare_prepare in Heq.
Qed.

(** ** render *)

Lemma render_template v w d :
  template v = Some d ->
  template (render v w).1.1 = Some (prepareElementListeners d) /\
  _template (render v w).1.1 = Some (prepareElementListeners d).
Proof.
  intros Ht. unfold render, prepareListeners. rewrite Ht. simpl.
  by destruct (renderElement _ _ _ _) as [w' [e|err]].
Qed.

Lemma render_grows v w : grows w (render v w).1.2.
Proof.
  unfold render, prepareListeners.
  destruct (template v) as [d|]; simpl; [|apply grows_refl].
  pose proof (W_grows_renderElement (vid v) (model v)
                (prepareElementListeners d) w) as Hg.
  by destruct (renderElement _ _ _ _) as [w' [e|err]].
Qed.

(** X2. [render()] only adds to the world: the elements, the log, the
    subscriptions on elements and on the model that were there are still
    there, in their order, and no captured callback is changed; nothing a
    former [render()] subscribed is revoked. Of the View it leaves the
    identity, the model and the regions alone; whether it returns or
    throws, the template is the prepared one and the compiled template is
    made from it; the cached element changes only when it returns. *)
Theorem render_only_adds (v : View) (w : world) :
  grows w (render v w).1.2 /\
  vid (render v w).1.1 = vid v /\
  model (render v w).1.1 = model v /\
  regions (render v w).1.1 = regions v /\
  (forall d, template v = Some d ->
     template (render v w).1.1 = Some (prepareElementListeners d) /\
     _template (render v w).1.1 = Some (prepareElementListeners d)) /\
  (forall err, (render v w).2 = Throw err ->
     _el (render v w).1.1 = _el v) /\
  (forall e, (render v w).2 = Ok e -> _el (render v w).1.1 = Some e).
Proof.
  split; [apply render_grows|]. split; [apply render_vid|].
  split; [apply render_model|]. split; [apply render_regions|].
  split; [intros d; apply render_template|]. split.
  - intros err. unfold render, prepareListeners.
    destruct (template v) as [d|]; simpl; [|done].
    by destruct (renderElement _ _ _ _) as [w' [e|err']].
  - intros e He. destruct (render v w) as [[v' w'] r] eqn:Hr.
    simpl in *. subst r. by apply render_sets_el in Hr.
Qed.

(** X3. The outcome of [render()]: without template it throws
    [ui-view-notemplate] and changes nothing; with a template it returns a
    new element if the model is there or the template has no bound
    attribute, and throws a [TypeError] if the model was dropped and the
    template has one. *)
Theorem render_outcome (v : View) (w : world) :
  match template v with
  | None => render v w = (v, w, Throw (MissingTemplate (vid v)))
  | Some d =>
      if renders (model v) d
      then (render v w).2 = Ok (next_el w)
      else (render v w).2 = Throw TypeError
  end.
Proof.
  destruct (template v) as [d|] eqn:Ht; [|by apply render_no_template].
  destruct (renders (model v) d) eqn:Hm.
  - by destruct (render_returns v w d Ht Hm) as (w' & l & -> & _).
  - unfold renders in Hm. destruct (model v) as [m|] eqn:Hmod; [done|].
    unfold render, prepareListeners. rewrite Ht. simpl. rewrite Hmod.
    pose proof (result_if_renderElement (vid v) (prepareElementListeners d)
                  (prepareElementListeners_prepared d) w) as Hr.
    rewrite prepareElementListeners_unbound, Hm in Hr.
    destruct (renderElement _ _ _ w) as [w' [e|err]]; simpl in *; [done|].
    by destruct Hr as [_ ->].
Qed.

(** ** destroy *)

(** X4. [destroy()] never throws [ui-view-notemplate], whatever the View and
    the regions below it have for a template: it returns or throws a
    [TypeError]. *)
Theorem destroy_never_missing_template (v : View) (w : world) :
  (destroy v w).2 = Ok tt \/ (destroy v w).2 = Throw TypeError.
Proof.
  pose proof (result_if_destroy v w) as H.
  destruct (destroy v w) as [[v' w'] [[]|err]]; simpl in *; [by left|].
  destruct H as [_ ->]. by right.
Qed.

Lemma destroy_returned_fields v w v' w' :
  destroy v w = (v', w', Ok tt) ->
  vid v' = vid v /\ model v' = None /\ regions v' = [] /\
  (forall d, template v' = Some d -> is_Some (_el v')) /\
  exists w0, w' = stopListening (vid v) w0.
Proof.
  intros Hd.
  pose proof (destroy_vid v w) as Hid. pose proof (destroy_model v w) as Hm.
  rewrite Hd in Hid, Hm. simpl in Hid, Hm.
  split; [done|]. split; [done|].
  rewrite destroy_unfold in Hd. unfold remove_el in Hd.
  assert (forall v1 w1,
            match regions_forEach destroy (vid v) (regions v) (regions v) w1
            with
            | (rs', w2, Throw err) => (set_regions rs' v1, w2, Throw err)
            | (rs', w2, Ok _) =>
                (set_regions rs' v1, stopListening (vid v) w2, Ok tt)
            end = (v', w', Ok tt) ->
            regions v' = [] /\ template v' = template v1 /\
            _el v' = _el v1 /\ exists w0, w' = stopListening (vid v) w0)
    as Hloop.
  { intros v1 w1 H.
    destruct (regions_forEach_log destroy (vid v) (regions v) (regions v) w1)
      as (body & _ & Hok).
    { apply Forall_forall. intros kv _ w0. apply destroy_log. }
    destruct (regions_forEach _ _ _ _ _) as [[rs' w2] [[]|err]]; [|done].
    injection H as <- <-. simpl in *.
    destruct (Hok eq_refl) as [Hcur _].
    split; [|split; [done|split; [done|by exists w2]]].
    destruct rs' as [|kv rs']; [done|]. exfalso.
    destruct (Hcur kv) as [Hin Hnot]; [apply elem_of_cons; by left|].
    apply Hnot. apply list_elem_of_fmap. by exists kv. }
  destruct (template (set_model None v)) as [d0|] eqn:Ht.
  - destruct (get_el (set_model None v) w) as [[v1 w1] [e|err]] eqn:Hel;
      [|done].
    apply get_el_sets_el in Hel.
    destruct (Hloop _ _ Hd) as (Hrs & Ht' & He' & Hw).
    split; [done|]. split; [|done]. intros d _. rewrite He', Hel. by eexists.
  - destruct (Hloop _ _ Hd) as (Hrs & Ht' & He' & Hw).
    split; [done|]. split; [|done]. intros d Hd'.
    rewrite Ht', Ht in Hd'. done.
Qed.

(** X5. [destroy()] can be called again. After a [destroy()] that returned,
    a second call (in whatever world) returns as well and leaves the View
    as it is; all it does is call [remove()] on the cached element once
    more, if the View has a template, and [stopListening()] once more. *)
Theorem destroy_twice (v : View) (w : world) (v' : View) (w' : world) :
  destroy v w = (v', w', Ok tt) ->
  forall w2,
    destroy v' w2 =
      (v',
       stopListening (vid v)
         match template v', _el v' with
         | Some _, Some e => emit (ERemove e) w2
         | _, _ => w2
         end,
       Ok tt).
Proof.
  intros Hd w2.
  destruct (destroy_returned_fields v w v' w' Hd)
    as (Hid & Hm & Hrs & Hel & _).
  destruct v' as [id' m' rs' el' t' ct']. simpl in *. subst id' m' rs'.
  unfold remove_el, get_el. simpl.
  destruct t' as [d|]; [|done].
  destruct (Hel d eq_refl) as [e ->]. done.
Qed.





(** ** bind *)

(** X7. With a callback passed to [bind], the function returned serves any
    number of elements: every invocation subscribes a handler of its own
    and calls the callback with the element and the updater of that same
    invocation; the captured callback stays what was passed. *)
Theorem bind_callback_reusable
    (p : string) (cb : ofn) (this : view_id) (m : Model) (el1 el2 : elem)
    (u1 u2 : ofn) (w : world) :
  let f := (bind p (Some cb) w).2 in
  let s1 := ModelSub this ("change:" ++ p) (bf_cell f) el1 u1 in
  let s2 := ModelSub this ("change:" ++ p) (bf_cell f) el2 u2 in
  let v0 := model_get m p in
  exists w1 w2,
    bind_attach this (Some m) f el1 u1 (bind p (Some cb) w).1 = (w1, Ok tt) /\
    bind_attach this (Some m) f el2 u2 w1 = (w2, Ok tt) /\
    cells w2 !! bf_cell f = Some cb /\
    model_subs w2 = model_subs w ++ [s1; s2] /\
    log w1 = log w ++ EListenToModel s1 :: ECall cb el1 v0 ::
               (if typeof_not_undefined
                     (ret cb (log w ++ [EListenToModel s1]) el1 v0)
                then [ECall u1 el1
                        (ret cb (log w ++ [EListenToModel s1]) el1 v0)]
                else []) /\
    log w2 = log w1 ++ EListenToModel s2 :: ECall cb el2 v0 ::
               (if typeof_not_undefined
                     (ret cb (log w1 ++ [EListenToModel s2]) el2 v0)
                then [ECall u2 el2
                        (ret cb (log w1 ++ [EListenToModel s2]) el2 v0)]
                else []).
Proof.
  intros f s1 s2 v0.
  pose proof (bind_callback_cell p cb w) as Hc0. fold f in Hc0.
  destruct (bind_attach_world this m f el1 u1 (bind p (Some cb) w).1)
    as (w1 & H1 & Hs1 & Hc1 & Hl1).
  rewrite Hc0 in Hl1. simpl in Hl1.
  assert (cells w1 !! bf_cell f = Some cb) as Hcell1.
  { rewrite Hc1. by apply default_callback_keeps. }
  destruct (bind_attach_world this m f el2 u2 w1)
    as (w2 & H2 & Hs2 & Hc2 & Hl2).
  rewrite Hcell1 in Hl2. simpl in Hl2.
  exists w1, w2. split; [done|]. split; [done|]. split.
  { rewrite Hc2. by apply default_callback_keeps. }
  split; [|done].
  rewrite Hs2, Hs1. simpl. by rewrite <-app_assoc.
Qed.

(** X8. Without a callback, the first invocation of the function [bind]
    returned makes the updater its own callback: the updater is called
    with the element and the value of the property and, unless it returns
    [undefined], once more with what it returned. *)
Theorem bind_default_calls_updater
    (p : string) (this : view_id) (m : Model) (el : elem) (upd : ofn)
    (w : world) :
  let f := (bind p None w).2 in
  let s := ModelSub this ("change:" ++ p) (bf_cell f) el upd in
  let pv := ret upd (log w ++ [EListenToModel s]) el (model_get m p) in
  exists w1,
    bind_attach this (Some m) f el upd (bind p None w).1 = (w1, Ok tt) /\
    cells w1 !! bf_cell f = Some upd /\
    (pv = VUndefined ->
     log w1 = log w ++ [EListenToModel s; ECall upd el (model_get m p)]) /\
    (pv <> VUndefined ->
     log w1 = log w ++ [EListenToModel s; ECall upd el (model_get m p);
                        ECall upd el pv]).
Proof.
  intros f s pv.
  pose proof (bind_no_callback_cell p w) as Hc0. fold f in Hc0.
  destruct (bind_attach_world this m f el upd (bind p None w).1)
    as (w1 & H1 & _ & Hc1 & Hl1).
  rewrite Hc0 in Hl1.
  assert (log w1 = log w ++ EListenToModel s :: ECall upd el (model_get m p)
                     :: (if typeof_not_undefined pv
                         then [ECall upd el pv] else [])) as Hl
    by exact Hl1.
  exists w1. split; [done|]. split.
  { rewrite Hc1, default_callback_cell, Hc0. done. }
  split; intros Hpv; rewrite Hl.
  - by rewrite Hpv.
  - apply typeof_not_undefined_true in Hpv. by rewrite Hpv.
Qed.

(** X9. A binding listens to its own property only: after the function
    [bind] returned for a property was invoked, the change notification of
    another property runs the handlers it would have run before, and not the
    new one. *)
Theorem change_of_other_property
    (this : view_id) (m : Model) (f : bindfn) (el : elem) (upd : ofn)
    (w : world) (p : string) (val : value) :
  p <> bf_property f ->
  fire_change this p val (bind_attach this (Some m) f el upd w).1
  = wforeach (change_handler val)
      (filter (fun s => ms_owner s = this /\
                        ms_event s = ("change:" ++ p)%string)
              (model_subs w))
      (bind_attach this (Some m) f el upd w).1.
Proof.
  intros Hp.
  destruct (bind_attach_world this m f el upd w) as (w1 & H1 & Hs1 & _).
  rewrite H1. simpl. unfold fire_change. rewrite Hs1, filter_app.
  rewrite filter_cons_False, filter_nil; [by rewrite app_nil_r|].
  simpl. intros [_ Heq]. apply Hp. symmetry.
  by apply (inj (String.app "change:")) in Heq.
Qed.

(** ** The model after destroy *)

Lemma call_model_null c s : model s.1 = None -> model (call c s).1 = None.
Proof.
  destruct s as [v w]. simpl. intros Hm. destruct c; simpl; try done.
  - by rewrite render_model.
  - unfold get_el. destruct (_el v); [done|]. by rewrite render_model.
  - apply destroy_model.
  - unfold set_property. by rewrite Hm.
Qed.

Lemma run_model_null cs s : model s.1 = None -> model (run cs s).1 = None.
Proof.
  revert s. induction cs as [|c cs IH]; intros s Hm; [done|].
  simpl. apply IH. by apply call_model_null.
Qed.

Lemma run_app cs1 cs2 s : run (cs1 ++ cs2) s = run cs2 (run cs1 s).
Proof. unfold run. apply foldl_app. Qed.

(** X10. [destroy()] is final for the model: whatever is done with a View
    before and after a call of [destroy()], the model reference is null from
    that call on (no method sets it again), so setting a property of the
    model throws from then on. *)
Theorem model_null_after_destroy
    (cs1 cs2 : list method) (s : View * world) (property : string)
    (val : value) :
  model (run (cs1 ++ CallDestroy :: cs2) s).1 = None /\
  (set_property property val (run (cs1 ++ CallDestroy :: cs2) s).1
                (run (cs1 ++ CallDestroy :: cs2) s).2).2 = Throw TypeError.
Proof.
  assert (model (run (cs1 ++ CallDestroy :: cs2) s).1 = None) as Hm.
  { rewrite run_app. change (CallDestroy :: cs2) with ([CallDestroy] ++ cs2).
    rewrite run_app. apply run_model_null. simpl. apply destroy_model. }
  split; [done|]. unfold set_property. by rewrite Hm.
Qed.

(** ** Listener declarations and native events *)

Lemma attach_items_world this el name sel l w :
  wforeach (fun f => call_on_function this f el name sel)
           (map getDOMListenerAttacher l) w
  = (foldl (fun w' a => attacher this a (EmElem el) (Some name) sel w') w l,
     Ok tt).
Proof.
  revert w. induction l as [|a l IH]; intros w; [done|].
  simpl map. rewrite wforeach_cons. simpl call_on_function.
  unfold wdo. by rewrite IH.
Qed.

Lemma attach_items_subs this el name sel l w :
  dom_subs (foldl (fun w' a => attacher this a (EmElem el) (Some name) sel w')
                  w l)
  = dom_subs w ++ map (DomSub this (EmElem el) (Some name) sel) l.
Proof.
  revert w. induction l as [|a l IH]; intros w; simpl.
  - by rewrite app_nil_r.
  - rewrite IH. simpl. by rewrite <-app_assoc.
Qed.

Lemma filter_items this el name sel l :
  filter (fun s => ds_emitter s = EmElem el /\ ds_event s = Some name)
         (map (DomSub this (EmElem el) (Some name) sel) l)
  = map (DomSub this (EmElem el) (Some name) sel) l.
Proof.
  induction l as [|a l IH]; [done|].
  simpl. rewrite filter_cons_True by done. by rewrite IH.
Qed.

Lemma run_listeners_items this el name sel l domEvt w :
  run_listeners (map (DomSub this (EmElem el) (Some name) sel) l) domEvt w
  = foldl (fun w' a => listener this sel a domEvt w') w l.
Proof.
  revert w. induction l as [|a l IH]; intros w; [done|].
  simpl map. rewrite run_listeners_cons. simpl. apply IH.
Qed.

Lemma listeners_pass_log this sel l domEvt w :
  selector_falsy sel
  || matches (de_target domEvt) (default EmptyString sel) = true ->
  log (foldl (fun w' a => listener this sel a domEvt w') w l)
  = log w ++ map (action_event this domEvt) l.
Proof.
  intros Hc. revert w. induction l as [|a l IH]; intros w; simpl.
  - by rewrite app_nil_r.
  - rewrite IH. unfold listener. rewrite Hc.
    destruct a; simpl; by rewrite <-app_assoc.
Qed.

Lemma listeners_fail_world this sel l domEvt w :
  selector_falsy sel
  || matches (de_target domEvt) (default EmptyString sel) = false ->
  foldl (fun w' a => listener this sel a domEvt w') w l = w.
Proof.
  intros Hc. induction l as [|a l IH]; simpl; [done|].
  unfold listener at 2. by rewrite Hc.
Qed.

(** X11. The actions of one listener declaration run in the order in which
    they were declared, each once. When the prepared value of a declaration
    (one action, or an array of them) is attached to an element that has no
    listener for that event yet, a native event that passes the selector
    test leaves in the log the effect of every declared action, first to
    last; an event that fails the selector test changes nothing. *)
Theorem declared_actions_run_in_order
    (this : view_id) (el : elem) (key : string) (val : on_value)
    (domEvt : dom_event) (w : world) :
  filter (fun s => ds_emitter s = EmElem el /\
                   ds_event s = Some (split_key key).1) (dom_subs w) = [] ->
  exists w1,
    attachListeners this el (key, prepare_on_value val) w = (w1, Ok tt) /\
    (selector_falsy (split_key key).2
     || matches (de_target domEvt) (default EmptyString (split_key key).2)
     = true ->
     log (dispatch el (split_key key).1 domEvt w1)
     = log w1 ++ map (action_event this domEvt) (on_items val)) /\
    (selector_falsy (split_key key).2
     || matches (de_target domEvt) (default EmptyString (split_key key).2)
     = false ->
     dispatch el (split_key key).1 domEvt w1 = w1).
Proof.
  intros Hnone.
  set (name := (split_key key).1) in *. set (sel := (split_key key).2).
  set (w1 := foldl (fun w' a => attacher this a (EmElem el) (Some name) sel w')
                   w (on_items val)).
  assert (attachListeners this el (key, prepare_on_value val) w = (w1, Ok tt))
    as Hrun.
  { unfold attachListeners. simpl. fold name sel. destruct val as [a|l].
    - done.
    - apply attach_items_world. }
  assert (dispatch el name domEvt w1
          = foldl (fun w' a => listener this sel a domEvt w') w1
                  (on_items val)) as Hdisp.
  { unfold dispatch. subst w1. rewrite attach_items_subs, filter_app, Hnone.
    simpl. rewrite <-run_listeners_items with (el := el) (name := name).
    by rewrite filter_items. }
  exists w1. split; [done|]. rewrite Hdisp. split; intros Hc.
  - by apply listeners_pass_log.
  - by apply listeners_fail_world.
Qed.

(** ** The whole tree of regions *)

Lemma regions_forEach_stops
    (dr : View -> world -> View * world * result unit) this l cur w :
  Forall (fun kv => forall w0,
            exists l0, log (dr kv.2 w0).1.2 = log w0 ++ l0 /\
                       ((dr kv.2 w0).2 = Ok tt ->
                        forall x, x ∈ subviews kv.2 ->
                                  EStopListening (vid x) ∈ l0)) l ->
  exists body,
    log (regions_forEach dr this l cur w).1.2 = log w ++ body /\
    ((regions_forEach dr this l cur w).2 = Ok tt ->
     forall kv x, kv ∈ l -> x ∈ subviews kv.2 ->
                  EStopListening (vid x) ∈ body).
Proof.
  intros Hl. revert cur w.
  induction Hl as [|[name r] l Hr _ IH]; intros cur w; simpl.
  - exists []. rewrite app_nil_r. split; [done|].
    intros _ kv x Hkv. by apply elem_of_nil in Hkv.
  - simpl in Hr.
    destruct (Hr (emit (ERegionRemove this name) w)) as (l0 & Hl0 & Hok).
    destruct (dr r _) as [[r' w2] [[]|err]]; simpl in *.
    + destruct (IH (nc_remove name cur) w2) as (body & Hb & Hrest).
      exists (ERegionRemove this name :: l0 ++ body). split.
      { rewrite Hb, Hl0. app_norm. }
      intros Hres kv x Hkv Hx. apply elem_of_cons; right.
      apply elem_of_app. apply elem_of_cons in Hkv as [->|Hkv].
      * left. by apply Hok.
      * right. by apply (Hrest Hres kv x).
    + exists (ERegionRemove this name :: l0). split; [|done].
      rewrite Hl0. app_norm.
Qed.

Lemma destroy_stops v :
  forall w, exists l,
    log (destroy v w).1.2 = log w ++ l /\
    ((destroy v w).2 = Ok tt ->
     forall x, x ∈ subviews v -> EStopListening (vid x) ∈ l).
Proof.
  induction v as [id m rs el t ct IH] using View_ind'. intros w.
  rewrite destroy_unfold. simpl vid. simpl regions.
  destruct (remove_el_log (set_model None (mkView id m rs el t ct)) w)
    as [l1 Hl1].
  destruct (remove_el _ w) as [[v1 w1] [[]|err]]; simpl in Hl1;
    [|by exists l1].
  destruct (regions_forEach_stops destroy id rs rs w1 IH) as (body & Hb & Hok).
  destruct (regions_forEach _ _ _ _ _) as [[rs' w2] [[]|err]]; simpl in *.
  - exists (l1 ++ body ++ [EStopListening id]). split.
    + rewrite Hb, Hl1. app_norm.
    + intros _ x Hx. apply elem_of_app; right.
      apply elem_of_cons in Hx as [->|Hx].
      * apply elem_of_app; right. simpl. by apply list_elem_of_singleton.
      * apply elem_of_app; left.
        apply list_elem_of_In, in_flat_map in Hx as (kv & Hkv & Hx).
        apply list_elem_of_In in Hkv, Hx. by apply (Hok eq_refl kv x).
  - exists (l1 ++ body). split; [|done]. rewrite Hb, Hl1. app_norm.
Qed.

(** X12. [destroy()] goes through the whole tree: when it returns, the
    View and every View below it, at any depth of regions within regions,
    has had its [stopListening()] called. *)
Theorem destroy_reaches_every_subview
    (v : View) (w : world) (v' : View) (w' : world) :
  destroy v w = (v', w', Ok tt) ->
  exists l, log w' = log w ++ l /\
            forall x, x ∈ subviews v -> EStopListening (vid x) ∈ l.
Proof.
  intros Hd. destruct (destroy_stops v w) as (l & Hl & Hok).
  rewrite Hd in Hl, Hok. simpl in *. exists l. split; [done|]. by apply Hok.
Qed.

(** X13. Functions returned by separate calls of [bind] do not share their
    callback: called once per element without a callback, [bind] gives
    functions each of which makes the updater of its own invocation its
    callback. *)
Theorem bind_per_element_independent
    (p : string) (this : view_id) (m : Model) (el1 el2 : elem)
    (u1 u2 : ofn) (w : world) :
  let f1 := (bind p None w).2 in
  let f2 := (bind p None (bind p None w).1).2 in
  let s2 := ModelSub this ("change:" ++ p) (bf_cell f2) el2 u2 in
  exists w1 w2,
    bf_cell f1 <> bf_cell f2 /\
    bind_attach this (Some m) f1 el1 u1 (bind p None (bind p None w).1).1
    = (w1, Ok tt) /\
    bind_attach this (Some m) f2 el2 u2 w1 = (w2, Ok tt) /\
    cells w2 !! bf_cell f1 = Some u1 /\
    cells w2 !! bf_cell f2 = Some u2 /\
    log w2 = log w1 ++ EListenToModel s2 :: ECall u2 el2 (model_get m p) ::
               (if typeof_not_undefined
                     (ret u2 (log w1 ++ [EListenToModel s2]) el2
                          (model_get m p))
                then [ECall u2 el2
                        (ret u2 (log w1 ++ [EListenToModel s2]) el2
                             (model_get m p))]
                else []).
Proof.
  intros f1 f2 s2.
  set (w0 := (bind p None (bind p None w).1).1).
  assert (bf_cell f1 <> bf_cell f2) as Hne by (simpl; lia).
  assert (cells w0 !! bf_cell f1 = None) as Hc1.
  { simpl. rewrite lookup_delete_ne by lia. apply lookup_delete_eq. }
  assert (cells w0 !! bf_cell f2 = None) as Hc2.
  { simpl. apply lookup_delete_eq. }
  destruct (bind_attach_world this m f1 el1 u1 w0) as (w1 & H1 & _ & Hw1 & _).
  assert (cells w1 !! bf_cell f1 = Some u1) as Hcell1.
  { by rewrite Hw1, default_callback_cell, Hc1. }
  assert (cells w1 !! bf_cell f2 = None) as Hcell2.
  { rewrite Hw1. unfold default_callback. rewrite Hc1. simpl.
    rewrite lookup_insert_ne by done. apply Hc2. }
  destruct (bind_attach_world this m f2 el2 u2 w1)
    as (w2 & H2 & _ & Hw2 & Hl2).
  rewrite Hcell2 in Hl2.
  exists w1, w2. split; [done|]. split; [done|]. split; [done|].
  split; [rewrite Hw2; by apply default_callback_keeps|].
  split; [by rewrite Hw2, default_callback_cell, Hcell2|].
  exact Hl2.
Qed.

(** ** How much a render subscribes *)

Lemma W_adds_ret {A} (a : A) : W_adds (wret a) 0 0.
Proof. intros w. simpl. split; [by exists a|lia]. Qed.

Lemma W_adds_bind {A B} (m : W A) (k : A -> W B) nd nm nd' nm' :
  W_adds m nd nm -> (forall a, W_adds (k a) nd' nm') ->
  W_adds (wbind m k) (nd + nd') (nm + nm').
Proof.
  intros Hm Hk w. unfold wbind. destruct (Hm w) as ([a Ha] & Hd & Hs).
  destruct (m w) as [w1 r]. simpl in *. subst r.
  destruct (Hk a w1) as (Hr & Hd' & Hs'). split; [done|lia].
Qed.

Lemma W_adds_foreach {A} (f : A -> W unit) (g h : A -> nat) l :
  Forall (fun x => W_adds (f x) (g x) (h x)) l ->
  W_adds (wforeach f l) (sum_list_with g l) (sum_list_with h l).
Proof.
  induction 1 as [|x l Hx _ IH]; simpl; [apply W_adds_ret|].
  by apply W_adds_bind.
Qed.

Lemma W_adds_eq {A} (m : W A) nd nm nd' nm' :
  W_adds m nd nm -> nd = nd' -> nm = nm' -> W_adds m nd' nm'.
Proof. by intros H <- <-. Qed.

Lemma bind_attach_dom_subs this m f el upd w :
  dom_subs (bind_attach this m f el upd w).1 = dom_subs w.
Proof.
  unfold bind_attach, wbind, wdo, wthrow, default_callback, onModelChange.
  destruct m as [m|]; simpl.
  - destruct (cells w !! bf_cell f) as [cb|] eqn:Hc; simpl.
    + rewrite Hc. by destruct (typeof_not_undefined _).
    + rewrite lookup_insert_eq. by destruct (typeof_not_undefined _).
  - by destruct (cells w !! bf_cell f).
Qed.

Lemma W_adds_renderAttribute this m el kv :
  W_adds (renderAttribute this (Some m) el kv) 0 (attr_bound_count kv).
Proof.
  unfold renderAttribute, attr_bound_count, attr_unbound.
  destruct kv.2 as [str|f]; intros w.
  - simpl. split; [by exists tt|lia].
  - pose proof (bind_attach_dom_subs this (Some m) f el (AttrUpdater kv.1) w)
      as Hd.
    destruct (bind_attach_world this m f el (AttrUpdater kv.1) w)
      as (w1 & Hrun & Hs & _).
    rewrite Hrun in *. simpl in *.
    split; [by exists tt|]. rewrite Hd, Hs, length_app. simpl. lia.
Qed.

Lemma W_adds_call_on_function this f el name sel :
  is_attacher f = true -> W_adds (call_on_function this f el name sel) 1 0.
Proof.
  destruct f as [| |a]; [done..|]. intros _ w. simpl.
  split; [by exists tt|]. rewrite length_app. simpl. lia.
Qed.

Lemma sum_list_with_const {A} (n : nat) (l : list A) :
  sum_list_with (fun _ => n) l = n * length l.
Proof. induction l as [|x l IH]; simpl; [lia|]. rewrite IH. lia. Qed.

Lemma W_adds_attachListeners this el kv :
  on_value_prepared kv.2 = true ->
  W_adds (attachListeners this el kv) (length (on_items kv.2)) 0.
Proof.
  unfold attachListeners. destruct kv.2 as [a|l]; simpl; intros Hp.
  - by apply W_adds_call_on_function.
  - eapply W_adds_eq.
    + apply (W_adds_foreach _ (fun _ => 1) (fun _ => 0)).
      rewrite forallb_forall in Hp. apply Forall_forall. intros f Hf.
      apply W_adds_call_on_function. apply Hp. by apply list_elem_of_In.
    + rewrite sum_list_with_const. lia.
    + rewrite sum_list_with_const. lia.
Qed.

Lemma W_adds_renderChildren rc (g h : tdef -> nat) el cs :
  Forall (fun c => W_adds (rc c) (g c) (h c)) cs ->
  W_adds (renderChildren rc el cs)
         (sum_list_with g cs) (sum_list_with h cs).
Proof.
  induction 1 as [|c cs Hc _ IH]; simpl; [apply W_adds_ret|].
  apply W_adds_bind; [done|]. intros child.
  apply (W_adds_bind _ _ 0 0); [|intros _; apply IH].
  intros w. simpl. split; [by exists tt|lia].
Qed.

(** Rendering a prepared definition while the model is there subscribes
    one listener for every declared action and one handler for every bound
    attribute of the tree. *)
Lemma W_adds_renderElement this m d :
  prepared d = true ->
  W_adds (renderElement this (Some m) d) (count_actions d) (count_bound d).
Proof.
  induction d as [tag attributes on children IH] using tdef_ind'.
  intros [Hon Hcs]%andb_true_iff.
  simpl renderElement. simpl count_actions. simpl count_bound.
  eapply W_adds_eq.
  - apply (W_adds_bind _ _ 0 0).
    { intros w. simpl. split; [by eexists|lia]. }
    intros el. unfold renderInto. apply W_adds_bind.
    { apply (W_adds_foreach _ (fun _ => 0) attr_bound_count).
      apply Forall_forall. intros kv _. apply W_adds_renderAttribute. }
    intros _.
    apply (W_adds_bind _ _
             (match children with
              | Some cs => sum_list_with count_actions cs
              | None => 0
              end)
             (match children with
              | Some cs => sum_list_with count_bound cs
              | None => 0
              end)).
    { destruct children as [cs|]; [|apply W_adds_ret]. simpl in IH.
      apply W_adds_renderChildren.
      rewrite forallb_forall in Hcs. rewrite Forall_forall in IH.
      apply Forall_forall. intros c Hc. apply IH; [done|].
      apply Hcs. by apply list_elem_of_In. }
    intros _.
    apply (W_adds_bind _ _
             (match on with
              | Some o => sum_list_with (fun kv => length (on_items kv.2)) o
              | None => 0
              end) 0);
      [|intros _; apply W_adds_ret].
    destruct on as [o|]; [|apply W_adds_ret].
    eapply W_adds_eq.
    + apply (W_adds_foreach _ (fun kv => length (on_items kv.2))
                            (fun _ => 0)).
      rewrite forallb_forall in Hon. apply Forall_forall. intros kv Hkv.
      apply W_adds_attachListeners. apply Hon. by apply list_elem_of_In.
    + done.
    + rewrite sum_list_with_const. lia.
  - rewrite sum_list_with_const. lia.
  - lia.
Qed.

Lemma count_prepareElementListeners d :
  count_actions (prepareElementListeners d) = count_actions d /\
  count_bound (prepareElementListeners d) = count_bound d.
Proof.
  induction d as [tag attributes on children IH] using tdef_ind'; simpl.
  assert (match children with
          | Some cs => sum_list_with count_actions
                         (map prepareElementListeners cs)
          | None => 0
          end = match children with
                | Some cs => sum_list_with count_actions cs
                | None => 0
                end /\
          match children with
          | Some cs => sum_list_with count_bound
                         (map prepareElementListeners cs)
          | None => 0
          end = match children with
                | Some cs => sum_list_with count_bound cs
                | None => 0
                end) as [Ha Hb].
  { destruct children as [cs|]; [|done]. simpl in IH.
    induction IH as [|c cs [Hc1 Hc2] _ [IH1 IH2]]; [done|]. simpl.
    by rewrite Hc1, Hc2, IH1, IH2. }
  split.
  - destruct children as [cs|]; simpl in *; rewrite ?Ha; f_equal;
      (destruct on as [o|]; [|done]);
      (induction o as [|kv o IHo]; [done|]); simpl; rewrite IHo; f_equal;
      destruct kv.2; simpl; by rewrite ?length_map.
  - destruct children as [cs|]; simpl in *; by rewrite ?Hb.
Qed.

(** X14. [render()] of a View whose model is there subscribes the whole
    template tree, nested children included: it returns, and adds exactly
    one native listener for every action declared in an [on] map of the
    tree and one change handler for every bound attribute of the tree. *)
Theorem render_subscribes_whole_tree
    (v : View) (w : world) (d : tdef) (m : Model) :
  template v = Some d -> model v = Some m ->
  (render v w).2 = Ok (next_el w) /\
  length (dom_subs (render v w).1.2)
  = length (dom_subs w) + count_actions d /\
  length (model_subs (render v w).1.2)
  = length (model_subs w) + count_bound d.
Proof.
  intros Ht Hm.
  destruct (render_returns v w d Ht) as (w' & l & Hr & Hre & _).
  { by rewrite Hm. }
  rewrite Hr. simpl. split; [done|].
  rewrite Hm in Hre.
  destruct (W_adds_renderElement (vid v) m (prepareElementListeners d)
              (prepareElementListeners_prepared d) w) as (_ & Hd & Hs).
  rewrite Hre in Hd, Hs. simpl in Hd, Hs.
  destruct (count_prepareElementListeners d) as [Ha Hb].
  by rewrite Hd, Hs, Ha, Hb.
Qed.

(** ** The template through a history *)

Lemma destroy_template v w d :
  template v = Some d ->
  template (destroy v w).1.1 = Some d \/
  template (destroy v w).1.1 = Some (prepareElementListeners d).
Proof.
  intros Ht. rewrite destroy_unfold. unfold remove_el, get_el.
  simpl. rewrite Ht.
  destruct (_el v) as [e|].
  - left. destruct (regions_forEach _ _ _ _ _) as [[rs' w2] [[]|err]];
      simpl; by rewrite Ht.
  - right.
    destruct (render_template (set_model None v) w d Ht) as [Hrt _].
    destruct (render (set_model None v) w) as [[v1 w1] [e|err]];
      simpl in *; [|done].
    by destruct (regions_forEach _ _ _ _ _) as [[rs' w2] [[]|err]].
Qed.

Lemma call_template c s d k :
  template s.1 = Some (Nat.iter k prepareElementListeners d) ->
  exists k', template (call c s).1
             = Some (Nat.iter k' prepareElementListeners d).
Proof.
  destruct s as [v w]. simpl. intros Ht. destruct c; simpl.
  - exists (S k). by destruct (render_template v w _ Ht) as [-> _].
  - unfold get_el. destruct (_el v); [by exists k|].
    exists (S k). by destruct (render_template v w _ Ht) as [-> _].
  - destruct (destroy_template v w _ Ht) as [->| ->];
      [by exists k|by exists (S k)].
  - by exists k.
  - by exists k.
  - unfold set_property. destruct (model v); by exists k.
  - by exists k.
Qed.

(** X15. A View never loses or replaces its template: through any history
    of method calls the template is the one the View started with, prepared
    some number of times, and unwrapping the attachers that often gives the
    original back. *)
Theorem template_only_prepared
    (cs : list method) (s : View * world) (d : tdef) :
  template s.1 = Some d ->
  exists k,
    template (run cs s).1 = Some (Nat.iter k prepareElementListeners d) /\
    Nat.iter k unprepareElementListeners
             (Nat.iter k prepareElementListeners d) = d.
Proof.
  intros Ht.
  assert (exists k, template (run cs s).1
                    = Some (Nat.iter k prepareElementListeners d))
    as [k Hk].
  { assert (exists k0, template s.1
                       = Some (Nat.iter k0 prepareElementListeners d))
      as Hs by (by exists 0).
    clear Ht. revert s Hs.
    induction cs as [|c cs IH]; intros s [k0 Hk0]; [by exists k0|].
    simpl. apply IH. by apply (call_template c s d k0). }
  exists k. split; [done|].
  clear. induction k as [|k IH]; [done|].
  rewrite Nat.iter_succ_r. simpl. by rewrite unprepare_prepare.
Qed.

End ViewClass.

(** * The theorems at sample inputs *)


(** [destroy()] of the never rendered [bound_view] throws while it renders
    the bound attribute with the model already dropped; the region stays in
    the collection and [stopListening()] is not reached. *)
Example destroy_unrendered_bound_throws :
  (destroy ret_undefined bound_view empty_world).2 = Throw TypeError /\
  regions (destroy ret_undefined bound_view empty_world).1.1
  = regions bound_view /\
  log (destroy ret_undefined bound_view empty_world).1.2
  = [ECreateElement 0 "p"].
Proof. repeat split. Qed.

(** The failing input of C2: one function [bind( 'x' )] attached to element 0
    with the updater of [class] and to element 1 with the updater of [id].
    The second attachment calls the updater of [class] on element 1 and
    never the updater of [id]. *)
Example bind_reuse_stale_callback :
  let w0 := (bind "x" None empty_world).1 in
  let f := (bind "x" None empty_world).2 in
  let m : Model := {["x"%string := VNum 3]} in
  let w1 := (bind_attach ret_undefined 1 (Some m) f 0 (AttrUpdater "class")
                         w0).1 in
  let w2 := (bind_attach ret_undefined 1 (Some m) f 1 (AttrUpdater "id")
                         w1).1 in
  log w2 =
    [EListenToModel (ModelSub 1 "change:x" 0 0 (AttrUpdater "class"));
     ECall (AttrUpdater "class") 0 (VNum 3);
     EListenToModel (ModelSub 1 "change:x" 0 1 (AttrUpdater "id"));
     ECall (AttrUpdater "class") 1 (VNum 3)] /\
  log (fire_change ret_undefined 1 "x" (VNum 4) w2).1 =
    log w2 ++ [ECall (AttrUpdater "class") 0 (VNum 4);
               ECall (AttrUpdater "class") 1 (VNum 4)].
Proof. split; reflexivity. Qed.

(** C4 at a sample input. *)
Lemma bind_attach_subscribes_then_calls_witness :
  subs_callable (bind "x" None empty_world).1 = true /\
  exists w1 w2 l1 l2,
    bind_attach ret_undefined 1 (Some {["x"%string := VNum 3]})
                (BindFn 0 "x") 0 (AttrUpdater "class")
                (bind "x" None empty_world).1 = (w1, Ok tt) /\
    fire_change ret_undefined 1 "x" (VNum 4) w1 = (w2, Ok tt) /\
    log w2 = log w1 ++ l1 ++ ECall (AttrUpdater "class") 0 (VNum 4) :: l2.
Proof.
  split; [reflexivity|].
  destruct (bind_attach_subscribes_then_calls ret_undefined 1
              {["x"%string := VNum 3]} (BindFn 0 "x") 0 (AttrUpdater "class")
              (bind "x" None empty_world).1)
    as (w1 & Hrun & _ & _ & Hfire).
  destruct (Hfire (VNum 4)) as [_ Hdeliver].
  destruct (Hdeliver eq_refl) as (w2 & l1 & l2 & Hf & Hl).
  exists w1, w2, l1, l2. split; [exact Hrun|]. split; [exact Hf|exact Hl].
Defined.

(** [world_bound] and [world_attached] are what [bind] and the function it
    returns make of the empty world. *)
Example world_attached_by_bind :
  bind "x" (Some (UserFn 1)) empty_world = (world_bound, BindFn 0 "x") /\
  bind_attach ret_echo 1 (Some {["x"%string := VNum 3]}) (BindFn 0 "x") 3
              (AttrUpdater "class") world_bound
  = (world_attached, Ok tt).
Proof. split; reflexivity. Qed.


(** C6 at sample inputs: a click inside and outside the selector, and a
    listener without selector. *)
Lemma listener_runs_action_iff_target_matches_witness :
  ".item"%string <> EmptyString /\
  listener matches_item 1 (Some ".item"%string) (AName "pick")
           (DomEvent 0 5) empty_world
  = listener_action 1 (AName "pick") (DomEvent 0 5) empty_world /\
  listener matches_item 1 (Some ".item"%string) (AName "pick")
           (DomEvent 0 6) empty_world
  = empty_world /\
  listener matches_item 1 None (AName "pick") (DomEvent 0 6) empty_world
  = listener_action 1 (AName "pick") (DomEvent 0 6) empty_world.
Proof.
  split; [discriminate|].
  destruct (listener_runs_action_iff_target_matches matches_item 1
              (AName "pick") 0 "click" (Some ".item"%string) (DomEvent 0 5)
              empty_world) as (_ & _ & _ & _ & _ & _ & Hsel5).
  destruct (listener_runs_action_iff_target_matches matches_item 1
              (AName "pick") 0 "click" (Some ".item"%string) (DomEvent 0 6)
              empty_world) as (_ & _ & _ & _ & _ & _ & Hsel6).
  destruct (listener_runs_action_iff_target_matches matches_item 1
              (AName "pick") 0 "click" None (DomEvent 0 6)
              empty_world) as (_ & _ & _ & _ & _ & Hnone & _).
  split; [|split].
  - apply (Hsel5 ".item"%string eq_refl); [discriminate|reflexivity].
  - apply (Hsel6 ".item"%string eq_refl); [discriminate|reflexivity].
  - apply (Hnone eq_refl).
Defined.

(** C7 at a sample input. *)
Lemma el_cached_render_not_memoized_witness :
  renders (model list_view)
          (TDef "ul" []
             (Some [("click@.item"%string, OSingle (AName "pick"));
                    ("keyup"%string,
                     OArray [ACallback (UserFn 7); AName "typed"])])
             (Some [TDef "li" [] None None])) = true /\
  (exists e v1 w1,
     get_el ret_undefined list_view empty_world = (v1, w1, Ok e) /\
     get_el ret_undefined v1 w1 = (v1, w1, Ok e) /\
     _el v1 = Some e /\
     render ret_undefined list_view empty_world = (v1, w1, Ok e) /\
     e = 0) /\
  (exists e1 v1 w1 e2 v2 w2,
     render ret_undefined list_view empty_world = (v1, w1, Ok e1) /\
     render ret_undefined v1 w1 = (v2, w2, Ok e2) /\ e1 < e2).
Proof.
  split; [reflexivity|].
  destruct (el_cached_render_not_memoized ret_undefined list_view empty_world
              _ eq_refl eq_refl)
    as [(e & u1 & x1 & Hg1 & Hg2 & Hc & Hfirst)
        (e1 & v1 & w1 & e2 & v2 & w2 & l & Hr1 & Hr2 & _ & _ & Hlt & _)].
  simpl in Hfirst. destruct Hfirst as (Hr & He & _).
  split.
  { exists e, u1, x1. split; [exact Hg1|]. split; [exact Hg2|].
    split; [exact Hc|]. split; [exact Hr|]. exact He. }
  exists e1, v1, w1, e2, v2, w2. split; [exact Hr1|]. split; [exact Hr2|].
  exact Hlt.
Defined.

(** C8 at the failing input: [destroy()] of the never rendered
    [bound_view] throws; its region is still in the collection and no
    [stopListening()] was logged. *)
Lemma destroy_throws_before_regions_witness :
  template bound_view
  = Some (TDef "p" [("class"%string, AVBind (BindFn 0 "x"))] None None) /\
  _el bound_view = None /\
  unbound (TDef "p" [("class"%string, AVBind (BindFn 0 "x"))] None None)
  = false /\
  exists v' w' l,
    destroy ret_undefined bound_view empty_world
    = (v', w', Throw TypeError) /\
    model v' = None /\
    regions v' = [("main"%string, new_View 2 ∅)] /\
    log w' = log empty_world ++ l /\
    ERegionRemove 1 "main" ∉ l /\
    EStopListening 1 ∉ l /\ EStopListening 2 ∉ l.
Proof.
  split; [reflexivity|]. split; [reflexivity|]. split; [reflexivity|].
  destruct (destroy_throws_before_regions ret_undefined bound_view
              empty_world _ eq_refl eq_refl eq_refl)
    as (v' & w' & l & Hd & Hm & Hrs & _ & Hl & _ & Hrem & Hstop & _).
  exists v', w', l. split; [exact Hd|]. split; [exact Hm|].
  split; [exact Hrs|]. split; [exact Hl|].
  split; [exact (Hrem 1 "main"%string)|].
  split; [exact (Hstop 1)|exact (Hstop 2)].
Defined.

(** [destroy()] of [parent_view], which returns. *)
Lemma destroy_regions_before_stopListening_witness :
  destroy_returns parent_view = true /\
  destroy ret_undefined parent_view empty_world
  = ((destroy ret_undefined parent_view empty_world).1.1,
     (destroy ret_undefined parent_view empty_world).1.2, Ok tt) /\
  model (destroy ret_undefined parent_view empty_world).1.1 = None /\
  regions (destroy ret_undefined parent_view empty_world).1.1 = [] /\
  exists body,
    log (destroy ret_undefined parent_view empty_world).1.2
    = body ++ [EStopListening 1].
Proof.
  split; [reflexivity|].
  destruct (destroy_regions_before_stopListening ret_undefined parent_view
              empty_world) as (_ & Hret & Hok).
  assert (destroy ret_undefined parent_view empty_world
          = ((destroy ret_undefined parent_view empty_world).1.1,
             (destroy ret_undefined parent_view empty_world).1.2, Ok tt))
    as Hd.
  { rewrite <-(proj2 Hret eq_refl).
    destruct (destroy ret_undefined parent_view empty_world) as [[v' w'] r].
    reflexivity. }
  split; [exact Hd|].
  destruct (Hok _ _ Hd) as (Hm & Hrs & body & Hlog & _).
  split; [exact Hm|]. split; [exact Hrs|]. exists body. exact Hlog.
Defined.


(** C9 at a sample input. *)
Lemma el_after_destroy_witness :
  get_el ret_undefined list_view empty_world
  = ((get_el ret_undefined list_view empty_world).1.1,
     (get_el ret_undefined list_view empty_world).1.2, Ok 0) /\
  get_el ret_undefined
    (destroy ret_undefined
       (get_el ret_undefined list_view empty_world).1.1
       (get_el ret_undefined list_view empty_world).1.2).1.1
    empty_world
  = ((destroy ret_undefined
        (get_el ret_undefined list_view empty_world).1.1
        (get_el ret_undefined list_view empty_world).1.2).1.1,
     empty_world, Ok 0).
Proof.
  split; [reflexivity|].
  apply (el_after_destroy ret_undefined list_view empty_world
           (get_el ret_undefined list_view empty_world).1.1
           (get_el ret_undefined list_view empty_world).1.2 0).
  right. reflexivity.
Defined.

(** C10 at a sample input. *)
Lemma second_render_wraps_attachers_witness :
  AName "pick" ∈ on_items (OSingle (AName "pick")) /\
  exists v1 w1 e1 v2 w2 e2,
    render ret_undefined list_view empty_world = (v1, w1, Ok e1) /\
    render ret_undefined v1 w1 = (v2, w2, Ok e2) /\
    DomSub 1 (EmElem e2) (Some "click"%string) (Some ".item"%string)
           (AAttacher (AName "pick")) ∈ dom_subs w2 /\
    EListenToDom (DomSub 1 (EmEvt (DomEvent 0 5)) None None (AName "pick"))
    ∈ log (dispatch matches_item e2 "click" (DomEvent 0 5) w2).
Proof.
  assert (AName "pick" ∈ on_items (OSingle (AName "pick"))) as Hitem.
  { apply list_elem_of_singleton. reflexivity. }
  split; [exact Hitem|].
  destruct (second_render_wraps_attachers ret_undefined matches_item
              list_view empty_world _ _ "click@.item"
              (OSingle (AName "pick")) (AName "pick") (DomEvent 0 5)
              eq_refl eq_refl eq_refl (list_elem_of_here _ _) Hitem)
    as (_ & _ & _ & _ & _ & v1 & w1 & e1 & v2 & w2 & e2 & Hr1 & Hr2 & _ & _
        & Hsub & _ & Hevt).
  exists v1, w1, e1, v2, w2, e2. split; [exact Hr1|]. split; [exact Hr2|].
  split; [exact Hsub|]. apply Hevt. reflexivity.
Defined.

(** [list_view] rendered twice, then a click on the matching element 5
    reaching the second root element (2): the listener of the second
    [render()] hands the event to the first-pass attacher, which subscribes
    a listener on the event object; the event [pick] is not fired. The same
    click reaching the first root element (0) fires [pick]. *)
Example second_render_click :
  (render ret_undefined list_view empty_world).2 = Ok 0 /\
  (render ret_undefined (render ret_undefined list_view empty_world).1.1
          (render ret_undefined list_view empty_world).1.2).2 = Ok 2 /\
  log (dispatch matches_item 2 "click" (DomEvent 0 5)
         (render ret_undefined (render ret_undefined list_view empty_world).1.1
                 (render ret_undefined list_view empty_world).1.2).1.2)
  = log (render ret_undefined (render ret_undefined list_view empty_world).1.1
                (render ret_undefined list_view empty_world).1.2).1.2
    ++ [EListenToDom
          (DomSub 1 (EmEvt (DomEvent 0 5)) None None (AName "pick"))] /\
  log (dispatch matches_item 0 "click" (DomEvent 0 5)
         (render ret_undefined (render ret_undefined list_view empty_world).1.1
                 (render ret_undefined list_view empty_world).1.2).1.2)
  = log (render ret_undefined (render ret_undefined list_view empty_world).1.1
                (render ret_undefined list_view empty_world).1.2).1.2
    ++ [EFire 1 "pick" (DomEvent 0 5)].
Proof.
  split; [vm_compute; reflexivity|]. split; [vm_compute; reflexivity|].
  split; vm_compute; reflexivity.
Qed.

(** X2 at a sample input. *)
Lemma render_only_adds_witness :
  template list_view
  = Some (TDef "ul" []
            (Some [("click@.item"%string, OSingle (AName "pick"));
                   ("keyup"%string,
                    OArray [ACallback (UserFn 7); AName "typed"])])
            (Some [TDef "li" [] None None])) /\
  (render ret_undefined list_view empty_world).2 = Ok 0 /\
  template (render ret_undefined list_view empty_world).1.1
  = Some (TDef "ul" []
            (Some [("click@.item"%string,
                    OSingle (AAttacher (AName "pick")));
                   ("keyup"%string,
                    OArray [AAttacher (ACallback (UserFn 7));
                            AAttacher (AName "typed")])])
            (Some [TDef "li" [] None None])) /\
  _el (render ret_undefined list_view empty_world).1.1 = Some 0.
Proof.
  split; [reflexivity|]. split; [reflexivity|].
  destruct (render_only_adds ret_undefined list_view empty_world)
    as (_ & _ & _ & _ & Ht & _ & Hel).
  split.
  - exact (proj1 (Ht _ eq_refl)).
  - exact (Hel 0 eq_refl).
Defined.

(** X5 at a sample input. *)
Lemma destroy_twice_witness :
  destroy ret_undefined plain_view empty_world
  = ((destroy ret_undefined plain_view empty_world).1.1,
     (destroy ret_undefined plain_view empty_world).1.2, Ok tt) /\
  destroy ret_undefined (destroy ret_undefined plain_view empty_world).1.1
          empty_world
  = ((destroy ret_undefined plain_view empty_world).1.1,
     stopListening 1 (emit (ERemove 0) empty_world), Ok tt).
Proof.
  split; [reflexivity|].
  apply (destroy_twice ret_undefined plain_view empty_world
           (destroy ret_undefined plain_view empty_world).1.1
           (destroy ret_undefined plain_view empty_world).1.2 eq_refl
           empty_world).
Defined.


(** X8 at a sample input. *)
Lemma bind_default_calls_updater_witness :
  ret_undefined (AttrUpdater "class")
                [EListenToModel
                   (ModelSub 1 "change:x" 0 3 (AttrUpdater "class"))]
                3 (VNum 3) = VUndefined /\
  exists w1,
    bind_attach ret_undefined 1 (Some {["x"%string := VNum 3]})
                (BindFn 0 "x") 3 (AttrUpdater "class")
                (bind "x" None empty_world).1 = (w1, Ok tt) /\
    log w1 = [EListenToModel
                (ModelSub 1 "change:x" 0 3 (AttrUpdater "class"));
              ECall (AttrUpdater "class") 3 (VNum 3)].
Proof.
  split; [reflexivity|].
  destruct (bind_default_calls_updater ret_undefined "x" 1
              {["x"%string := VNum 3]} 3 (AttrUpdater "class") empty_world)
    as (w1 & Hrun & _ & Hundef & _).
  exists w1. split; [exact Hrun|]. exact (Hundef eq_refl).
Defined.

(** X9 at a sample input. *)
Lemma change_of_other_property_witness :
  "y"%string <> "x"%string /\
  fire_change ret_undefined 1 "y" (VNum 4)
    (bind_attach ret_undefined 1 (Some {["x"%string := VNum 3]})
                 (BindFn 0 "x") 3 (AttrUpdater "class") empty_world).1
  = ((bind_attach ret_undefined 1 (Some {["x"%string := VNum 3]})
                  (BindFn 0 "x") 3 (AttrUpdater "class") empty_world).1,
     Ok tt).
Proof.
  assert ("y"%string <> "x"%string) as Hne by discriminate.
  split; [exact Hne|].
  exact (change_of_other_property ret_undefined 1 {["x"%string := VNum 3]}
           (BindFn 0 "x") 3 (AttrUpdater "class") empty_world "y" (VNum 4)
           Hne).
Defined.

(** X11 at a sample input. *)
Lemma declared_actions_run_in_order_witness :
  filter (fun s => ds_emitter s = EmElem 0 /\
                   ds_event s = Some (split_key "keyup").1)
         (dom_subs empty_world) = [] /\
  exists w1,
    attachListeners 1 0
      ("keyup"%string,
       prepare_on_value (OArray [ACallback (UserFn 7); AName "typed"]))
      empty_world = (w1, Ok tt) /\
    log (dispatch matches_item 0 "keyup" (DomEvent 0 6) w1)
    = log w1 ++ [ECallEvt (UserFn 7) (DomEvent 0 6);
                 EFire 1 "typed" (DomEvent 0 6)].
Proof.
  split; [reflexivity|].
  destruct (declared_actions_run_in_order matches_item 1 0 "keyup"
              (OArray [ACallback (UserFn 7); AName "typed"]) (DomEvent 0 6)
              empty_world eq_refl) as (w1 & Hrun & Hpass & _).
  exists w1. split; [exact Hrun|]. exact (Hpass eq_refl).
Defined.

(** X12 at a sample input. *)
Lemma destroy_reaches_every_subview_witness :
  destroy ret_undefined parent_view empty_world
  = ((destroy ret_undefined parent_view empty_world).1.1,
     (destroy ret_undefined parent_view empty_world).1.2, Ok tt) /\
  exists l,
    log (destroy ret_undefined parent_view empty_world).1.2
    = log empty_world ++ l /\
    EStopListening 1 ∈ l /\ EStopListening 2 ∈ l /\ EStopListening 3 ∈ l.
Proof.
  split; [reflexivity|].
  destruct (destroy_reaches_every_subview ret_undefined parent_view
              empty_world
              (destroy ret_undefined parent_view empty_world).1.1
              (destroy ret_undefined parent_view empty_world).1.2 eq_refl)
    as (l & Hl & Hall).
  exists l. split; [exact Hl|].
  split; [|split].
  - apply (Hall parent_view). apply list_elem_of_here.
  - apply (Hall (set_template (Some (TDef "div" [] None None))
                              (new_View 2 ∅))).
    apply list_elem_of_further, list_elem_of_here.
  - apply (Hall (new_View 3 ∅)).
    apply list_elem_of_further, list_elem_of_further, list_elem_of_here.
Defined.

(** X14 at a sample input. *)
Lemma render_subscribes_whole_tree_witness :
  model list_view = Some ∅ /\
  (render ret_undefined list_view empty_world).2 = Ok 0 /\
  length (dom_subs (render ret_undefined list_view empty_world).1.2) = 3 /\
  length (model_subs (render ret_undefined list_view empty_world).1.2) = 0.
Proof.
  split; [reflexivity|].
  exact (render_subscribes_whole_tree ret_undefined list_view empty_world
           _ ∅ eq_refl eq_refl).
Defined.

(** X15 at a sample input. *)
Lemma template_only_prepared_witness :
  template plain_view = Some paragraph /\
  exists k,
    template (run ret_undefined matches_item
                  [CallRender; ReadEl; CallDestroy; CallRender]
                  (plain_view, empty_world)).1
    = Some (Nat.iter k prepareElementListeners paragraph).
Proof.
  split; [reflexivity|].
  destruct (template_only_prepared ret_undefined matches_item
              [CallRender; ReadEl; CallDestroy; CallRender]
              (plain_view, empty_world) paragraph eq_refl) as (k & Hk & _).
  exists k. exact Hk.
Defined.

(** X1 at a sample input. *)
Lemma prepareElementListeners_round_trip_witness :
  prepareElementListeners (TDef "p" [] None None)
  = prepareElementListeners paragraph /\
  unprepareElementListeners
    (prepareElementListeners
       (TDef "ul" []
          (Some [("click@.item"%string, OSingle (AName "pick"));
                 ("keyup"%string,
                  OArray [ACallback (UserFn 7); AName "typed"])])
          (Some [TDef "li" [] None None])))
  = TDef "ul" []
      (Some [("click@.item"%string, OSingle (AName "pick"));
             ("keyup"%string,
              OArray [ACallback (UserFn 7); AName "typed"])])
      (Some [TDef "li" [] None None]) /\
  TDef "p" [] None None = paragraph.
Proof.
  split; [reflexivity|]. split.
  - exact (proj1 (prepareElementListeners_round_trip _)).
  - exact (proj2 (proj2 (prepareElementListeners_round_trip paragraph))
             (TDef "p" [] None None) eq_refl).
Defined.
